(** * Transaction-message compilation and wire codec of solana-go-sdk

    A shallow embedding of [common/byte.go] and [types/message.go]:
    the length-prefix encoder [UintToVarLenBytes], the message compiler
    [NewMessage] and the codec pair [Serialize] / [MessageDeserialize],
    followed by the properties the specification states about them. *)

From Stdlib Require Import ZArith Lia List Bool.
From Stdlib Require Import Strings.Byte Strings.Ascii Strings.String.
From stdpp Require Import base option list vector countable gmap strings.

Local Open Scope Z_scope.

(** ** Bytes and machine integers *)

Module Bytes.

Definition byte_of_Z (z : Z) : byte :=
  default x00 (Byte.of_N (Z.to_N (z mod 256))).

Definition Z_of_byte (b : byte) : Z := Z.of_N (Byte.to_N b).

(** Go's conversions between integer types: the value is reduced to the
    width of the target; a signed target reads the top bit as the sign. *)
Definition uint8 (z : Z) : Z := z mod 256.
Definition uint64 (z : Z) : Z := z mod 2 ^ 64.
Definition int64 (z : Z) : Z := (z + 2 ^ 63) mod 2 ^ 64 - 2 ^ 63.

(** [len(s)] as a Go [int]. *)
Definition len {A} (s : list A) : Z := Z.of_nat (length s).

End Bytes.
Export Bytes.

#[global] Instance byte_eq_dec : EqDecision byte := Byte.byte_eq_dec.

(** ** Results of a Go call: a value, a returned [error], or a run-time panic *)

(** What a returned [error] says (the messages of [message.go], with the
    positions they are formatted with), and the run-time panics. *)
Inductive error : Type :=
  | MessageHeaderParseError (i : nat)
  | ParseAccountError
  | ParseBlockhashError
  | ParseInstructionCountError
  | ParseInstructionProgramIDError (i : nat)
  | ParseInstructionAccountCountError (i : nat)
  | ParseInstructionAccountIdxError (i j : nat)
  | ParseInstructionDataLengthError (i : nat)
  | Base58DecodeError.

Inductive panic : Type :=
  | IndexOutOfRange
  | SliceBoundsOutOfRange
  | MakesliceCapOutOfRange.

Inductive outcome (A : Type) : Type :=
  | Ok (a : A)
  | Err (e : error)
  | Panic (p : panic).
Arguments Ok {A} a.
Arguments Err {A} e.
Arguments Panic {A} p.

#[global] Instance outcome_ret : MRet outcome := fun _ a => Ok a.
#[global] Instance outcome_bind : MBind outcome := fun _ _ k o =>
  match o with
  | Ok a => k a
  | Err e => Err e
  | Panic e => Panic e
  end.

(** ** common/byte.go *)

Module common.

(** [binary.MaxVarintLen64] of Go's encoding/binary. *)
Definition MaxVarintLen64 : nat := 10.

(** [binary.PutUvarint(buf, x)] of Go's encoding/binary:
<<
    i := 0
    for x >= 0x80 { buf[i] = byte(x) | 0x80; x >>= 7; i++ }
    buf[i] = byte(x)
    return i + 1
>>
    The recursion runs over the part of [buf] from position [i] on, so
    the write [buf[i] = ...] is the replacement of its head; an empty
    remainder is Go's index-out-of-range panic.  The result is the
    buffer after the writes. *)
Fixpoint PutUvarint (buf : list byte) (x : Z) : outcome (list byte) :=
  match buf with
  | [] => Panic IndexOutOfRange
  | _ :: rest =>
      if 128 <=? x
      then r ← PutUvarint rest (Z.shiftr x 7);
           Ok (byte_of_Z (Z.lor (uint8 x) 128) :: r)
      else Ok (byte_of_Z x :: rest)
  end.

(** [trimTrailingZeroByte]: the loop condition [len >= 0] always holds,
    so each round reads the byte at [len-1] (a panic on the empty
    slice), stops when that byte is not zero and otherwise drops it.
    [trim_loop] runs on the slice read from its end. *)
Fixpoint trim_loop (rb : list byte) : outcome (list byte) :=
  match rb with
  | [] => Panic IndexOutOfRange
  | x :: rb' =>
      if bool_decide (x ≠ x00) then Ok rb else trim_loop rb'
  end.

Definition trimTrailingZeroByte (b : list byte) : outcome (list byte) :=
  r ← trim_loop (reverse b); Ok (reverse r).

Definition UintToVarLenBytes (l : Z) : outcome (list byte) :=
  b ← PutUvarint (replicate MaxVarintLen64 x00) l;
  trimTrailingZeroByte b.

End common.

(** ** common.PublicKey *)

#[global] Program Instance byte_countable : Countable byte :=
  inj_countable' Byte.to_N (λ n, default x00 (Byte.of_N n)) _.
Next Obligation. intros b. simpl. by rewrite Byte.of_to_N. Qed.

Module PublicKey.

(** [type PublicKey [32]byte]. *)
Definition PublicKeyLength : nat := 32.
Definition t : Type := vec byte PublicKeyLength.

(** [ZeroPublicKey], the zero value of the array type. *)
Definition ZeroPublicKey : t := vreplicate PublicKeyLength x00.

(** [key[:]]: the 32 bytes of a key in order. *)
Definition bytes (k : t) : list byte := vec_to_list k.

(** Modelled from the spec: [PublicKeyFromHex] and the hex round trip it
    is fed with are not part of the sources at hand.  Section 4.5 has the
    decoder "consume 32-byte identities"; [of_bytes] makes a key of the
    first 32 bytes of a slice (positions past its end read as zero). *)
Definition of_bytes (b : list byte) : t :=
  fun_to_vec (λ i : fin PublicKeyLength, default x00 (b !! fin_to_nat i)).

End PublicKey.
Abbreviation PublicKey := PublicKey.t.
Abbreviation ZeroPublicKey := PublicKey.ZeroPublicKey.

(** Keys of a Go map are compared byte by byte. *)
#[global] Instance PublicKey_eq_dec : EqDecision PublicKey := vec_dec.
#[global] Program Instance PublicKey_countable : Countable PublicKey | 0 :=
  inj_countable' PublicKey.bytes PublicKey.of_bytes _.
Next Obligation.
  intros k. apply vec_eq; intros i. unfold PublicKey.of_bytes, PublicKey.bytes.
  rewrite lookup_fun_to_vec.
  by rewrite (proj1 (vlookup_lookup k i (k !!! i)) eq_refl).
Qed.

(** ** base58, the external text codec of the block hash

    [base58.Decode] returns the bytes or an error ([None]),
    [base58.Encode] the text.  The codec is a collaborator of the message
    code: every general statement below holds for whatever codec is
    plugged in. *)

Class Base58 : Type := {
  base58_Decode : string → option (list byte);
  base58_Encode : list byte → string
}.

(** ** types/message.go: data model *)

(** Modelled from the spec: the struct declarations [AccountMeta],
    [Instruction] and [CompiledInstruction] are not part of the sources at
    hand; fields as section 3 lists them and as [message.go] and the
    instruction builders use them. *)
Record AccountMeta : Type := {
  PubKey : PublicKey;
  IsSigner : bool;
  IsWritable : bool
}.

Module Instruction.
Record t : Type := {
  ProgramID : PublicKey;
  Accounts : list AccountMeta;
  Data : list byte
}.
End Instruction.

Module CompiledInstruction.
Record t : Type := {
  ProgramIDIndex : Z;
  Accounts : list Z;
  Data : list byte
}.
End CompiledInstruction.

Record MessageHeader : Type := {
  NumRequireSignatures : Z;
  NumReadonlySignedAccounts : Z;
  NumReadonlyUnsignedAccounts : Z
}.

Module Message.
Record t : Type := {
  Header : MessageHeader;
  Accounts : list PublicKey;
  RecentBlockHash : string;
  Instructions : list CompiledInstruction.t
}.
End Message.

(** ** Iteration over a Go map

    [for _, account := range accountMap] visits every entry once, in an
    order the language leaves open and that may change from one run to the
    next.  A [RangeOrder] is one such choice: it is handed the entries and
    returns them rearranged. *)
Record RangeOrder : Type := {
  range_visit : list AccountMeta → list AccountMeta;
  range_perm : ∀ l, range_visit l ≡ₚ l
}.

Definition range (ro : RangeOrder) (accountMap : gmap PublicKey AccountMeta)
  : list AccountMeta :=
  range_visit ro (map_to_list accountMap).*2.

Definition range_forward : RangeOrder :=
  {| range_visit := λ l, l; range_perm := λ l, reflexivity l |}.

Definition range_backward : RangeOrder :=
  {| range_visit := reverse; range_perm := reverse_Permutation |}.

(** ** types/message.go: the codec and the compiler *)

Module types.

Import Instruction.

(** *** Serialize (lines 25-54) *)

(** The body of the loop over the instructions, lines 44-51. *)
Definition serializeInstruction (b : list byte)
    (instruction : CompiledInstruction.t) : outcome (list byte) :=
  let b := b ++ [byte_of_Z (CompiledInstruction.ProgramIDIndex instruction)] in
  n ← common.UintToVarLenBytes
        (uint64 (len (CompiledInstruction.Accounts instruction)));
  let b := b ++ n in
  let b := foldl (λ b accountIdx, b ++ [byte_of_Z accountIdx])
                 b (CompiledInstruction.Accounts instruction) in
  let b := b ++ [byte_of_Z (len (CompiledInstruction.Data instruction))] in
  Ok (b ++ CompiledInstruction.Data instruction).

Fixpoint serializeInstructions (b : list byte)
    (instructions : list CompiledInstruction.t) : outcome (list byte) :=
  match instructions with
  | [] => Ok b
  | instruction :: rest =>
      b ← serializeInstruction b instruction;
      serializeInstructions b rest
  end.

Definition Serialize `{Base58} (m : Message.t) : outcome (list byte) :=
  let b := [] in
  let b := b ++ [byte_of_Z (NumRequireSignatures (Message.Header m))] in
  let b := b ++ [byte_of_Z (NumReadonlySignedAccounts (Message.Header m))] in
  let b := b ++ [byte_of_Z (NumReadonlyUnsignedAccounts (Message.Header m))] in
  n ← common.UintToVarLenBytes (uint64 (len (Message.Accounts m)));
  let b := b ++ n in
  let b := foldl (λ b key, b ++ PublicKey.bytes key) b (Message.Accounts m) in
  match base58_Decode (Message.RecentBlockHash m) with
  | None => Err Base58DecodeError
  | Some blockHash =>
      let b := b ++ blockHash in
      n ← common.UintToVarLenBytes (uint64 (len (Message.Instructions m)));
      let b := b ++ n in
      serializeInstructions b (Message.Instructions m)
  end.

(** *** MessageDeserialize (lines 56-132) *)

(** Modelled from the spec: [parseUvarint] is called by
    [MessageDeserialize] but is not part of the sources at hand.
    Section 4.1: decoding "consumes bytes from a cursor until a byte with
    the continuation bit clear is read, reconstructing the integer; fails
    ... if the cursor exhausts the buffer before a terminating byte, or if
    more than 10 bytes are consumed".  The integer is a [uint64].  The
    result is the value, whether an error is returned, and the cursor
    after the call; on failure the value is 0 and the cursor stays. *)
Fixpoint uvarint_from (n : nat) (buf : list byte) (shift acc : Z)
  : option (Z * list byte) :=
  match n, buf with
  | S n, b :: rest =>
      let v := Z_of_byte b in
      if v <? 128
      then Some (uint64 (Z.lor acc (Z.shiftl v shift)), rest)
      else uvarint_from n rest (shift + 7)
             (Z.lor acc (Z.shiftl (Z.land v 127) shift))
  | _, _ => None
  end.

Definition parseUvarint (messageData : list byte) : Z * bool * list byte :=
  match uvarint_from common.MaxVarintLen64 messageData 0 0 with
  | Some (v, rest) => (v, false, rest)
  | None => (0, true, messageData)
  end.

(** [make([]T, 0, n)] with [n] a [uint64], on a 64-bit platform: the
    run time panics when [n] does not fit an [int] or when the slice
    would take more than [maxAlloc] bytes.  (Running out of memory below
    that limit is outside the model.) *)
Definition maxAlloc : Z := 2 ^ 48.
Definition make (elemsize n : Z) : outcome unit :=
  if (n <? 2 ^ 63) && (elemsize * n <=? maxAlloc) then Ok ()
  else Panic MakesliceCapOutOfRange.

Definition sizeof_PublicKey : Z := 32.
Definition sizeof_int : Z := 8.
Definition sizeof_CompiledInstruction : Z := 56.

(** Lines 61-67, one round: the error of [parseUvarint] is looked at
    only when the value exceeds 255. *)
Definition parseHeaderField (i : nat) (messageData : list byte)
  : outcome (Z * list byte) :=
  let '(t, _, messageData) := parseUvarint messageData in
  if 255 <? t then Err (MessageHeaderParseError (i + 1))
  else Ok (uint8 t, messageData).

(** Lines 74-77, [n] rounds.  [messageData[:32]] and [messageData[32:]]
    panic on a slice shorter than 32 bytes. *)
Fixpoint parseAccounts (n : nat) (accounts : list PublicKey)
    (messageData : list byte) : outcome (list PublicKey * list byte) :=
  match n with
  | O => Ok (accounts, messageData)
  | S n =>
      if len messageData <? 32 then Panic SliceBoundsOutOfRange
      else parseAccounts n
             (accounts ++ [PublicKey.of_bytes (take 32 messageData)])
             (drop 32 messageData)
  end.

(** Lines 101-107, [n] rounds starting at round [j]. *)
Fixpoint parseAccountIdxs (i j n : nat) (accounts : list Z)
    (messageData : list byte) : outcome (list Z * list byte) :=
  match n with
  | O => Ok (accounts, messageData)
  | S n =>
      let '(accountIdx, err, messageData) := parseUvarint messageData in
      if err then Err (ParseInstructionAccountIdxError (i + 1) (j + 1))
      else parseAccountIdxs i (S j) n (accounts ++ [int64 accountIdx])
             messageData
  end.

(** Lines 92-119, round [i] of the loop over the instructions. *)
Definition parseInstruction (i : nat) (messageData : list byte)
  : outcome (CompiledInstruction.t * list byte) :=
  let '(programID, err, messageData) := parseUvarint messageData in
  if err then Err (ParseInstructionProgramIDError (i + 1)) else
  let '(accountCount, err, messageData) := parseUvarint messageData in
  if err then Err (ParseInstructionAccountCountError (i + 1)) else
  _ ← make sizeof_int accountCount;
  '(accounts, messageData) ←
    parseAccountIdxs i 0 (Z.to_nat (int64 accountCount)) [] messageData;
  let '(dataLen, err, messageData) := parseUvarint messageData in
  if err then Err (ParseInstructionDataLengthError (i + 1)) else
  if len messageData <? dataLen then Panic SliceBoundsOutOfRange else
  let data := take (Z.to_nat dataLen) messageData in
  let messageData := drop (Z.to_nat dataLen) messageData in
  Ok ({| CompiledInstruction.ProgramIDIndex := int64 programID;
         CompiledInstruction.Accounts := accounts;
         CompiledInstruction.Data := data |}, messageData).

(** Lines 91-120, [n] rounds starting at round [i]. *)
Fixpoint parseInstructions (i n : nat)
    (instructions : list CompiledInstruction.t) (messageData : list byte)
  : outcome (list CompiledInstruction.t * list byte) :=
  match n with
  | O => Ok (instructions, messageData)
  | S n =>
      '(instruction, messageData) ← parseInstruction i messageData;
      parseInstructions (S i) n (instructions ++ [instruction]) messageData
  end.

Definition MessageDeserialize `{Base58} (messageData : list byte)
  : outcome Message.t :=
  '(numRequireSignatures, messageData) ← parseHeaderField 0 messageData;
  '(numReadonlySignedAccounts, messageData) ← parseHeaderField 1 messageData;
  '(numReadonlyUnsignedAccounts, messageData) ← parseHeaderField 2 messageData;
  let '(accountCount, _, messageData) := parseUvarint messageData in
  if len messageData <? int64 (int64 accountCount * 32)
  then Err ParseAccountError else
  _ ← make sizeof_PublicKey accountCount;
  '(accounts, messageData) ←
    parseAccounts (Z.to_nat (int64 accountCount)) [] messageData;
  if len messageData <? 32 then Err ParseBlockhashError else
  let blockHash := base58_Encode (take 32 messageData) in
  let messageData := drop 32 messageData in
  let '(instructionCount, err, messageData) := parseUvarint messageData in
  if err then Err ParseInstructionCountError else
  _ ← make sizeof_CompiledInstruction instructionCount;
  '(instructions, _) ←
    parseInstructions 0 (Z.to_nat (int64 instructionCount)) [] messageData;
  Ok {| Message.Header :=
          {| NumRequireSignatures := numRequireSignatures;
             NumReadonlySignedAccounts := numReadonlySignedAccounts;
             NumReadonlyUnsignedAccounts := numReadonlyUnsignedAccounts |};
        Message.Accounts := accounts;
        Message.RecentBlockHash := blockHash;
        Message.Instructions := instructions |}.

(** *** NewMessage (lines 134-224) *)

(** Lines 146-155: one account of one instruction.  The map holds
    pointers to private copies, so the update through [a] changes the
    entry stored under the key and nothing else. *)
Definition mergeAccount (accountMap : gmap PublicKey AccountMeta)
    (account : AccountMeta) : gmap PublicKey AccountMeta :=
  match accountMap !! PubKey account with
  | None => <[PubKey account := account]> accountMap
  | Some a =>
      <[PubKey account :=
          {| PubKey := PubKey a;
             IsSigner := IsSigner a || IsSigner account;
             IsWritable := IsWritable a || IsWritable account |}]> accountMap
  end.

(** Lines 137-155: the body of the loop over the instructions. *)
Definition mergeInstruction (accountMap : gmap PublicKey AccountMeta)
    (instruction : Instruction.t) : gmap PublicKey AccountMeta :=
  let accountMap :=
    match accountMap !! ProgramID instruction with
    | Some _ => accountMap
    | None =>
        <[ProgramID instruction :=
            {| PubKey := ProgramID instruction;
               IsSigner := false; IsWritable := false |}]> accountMap
    end in
  foldl mergeAccount accountMap (Accounts instruction).

(** Lines 135-156. *)
Definition mergeAccounts (instructions : list Instruction.t)
  : gmap PublicKey AccountMeta :=
  foldl mergeInstruction ∅ instructions.

(** Lines 158-161: the four lists the closure [classify] appends to. *)
Record tiers : Type := {
  writableSignedAccount : list PublicKey;
  readOnlySignedAccount : list PublicKey;
  writableUnsignedAccount : list PublicKey;
  readOnlyUnsignedAccount : list PublicKey
}.

Definition no_tiers : tiers :=
  {| writableSignedAccount := []; readOnlySignedAccount := [];
     writableUnsignedAccount := []; readOnlyUnsignedAccount := [] |}.

(** Lines 162-176. *)
Definition classify (t : tiers) (account : AccountMeta) : tiers :=
  if IsSigner account then
    if IsWritable account then
      {| writableSignedAccount := writableSignedAccount t ++ [PubKey account];
         readOnlySignedAccount := readOnlySignedAccount t;
         writableUnsignedAccount := writableUnsignedAccount t;
         readOnlyUnsignedAccount := readOnlyUnsignedAccount t |}
    else
      {| writableSignedAccount := writableSignedAccount t;
         readOnlySignedAccount := readOnlySignedAccount t ++ [PubKey account];
         writableUnsignedAccount := writableUnsignedAccount t;
         readOnlyUnsignedAccount := readOnlyUnsignedAccount t |}
  else
    if IsWritable account then
      {| writableSignedAccount := writableSignedAccount t;
         readOnlySignedAccount := readOnlySignedAccount t;
         writableUnsignedAccount := writableUnsignedAccount t ++ [PubKey account];
         readOnlyUnsignedAccount := readOnlyUnsignedAccount t |}
    else
      {| writableSignedAccount := writableSignedAccount t;
         readOnlySignedAccount := readOnlySignedAccount t;
         writableUnsignedAccount := writableUnsignedAccount t;
         readOnlyUnsignedAccount := readOnlyUnsignedAccount t ++ [PubKey account] |}.

(** Lines 177-189: the two [range] loops and the fee payer put in front. *)
Definition orderAccounts (ro : RangeOrder) (feePayer : PublicKey)
    (accountMap : gmap PublicKey AccountMeta) : tiers :=
  if bool_decide (feePayer ≠ ZeroPublicKey) then
    let t :=
      foldl (λ t account,
               if bool_decide (feePayer = PubKey account) then t
               else classify t account)
            no_tiers (range ro accountMap) in
    {| writableSignedAccount := feePayer :: writableSignedAccount t;
       readOnlySignedAccount := readOnlySignedAccount t;
       writableUnsignedAccount := writableUnsignedAccount t;
       readOnlyUnsignedAccount := readOnlyUnsignedAccount t |}
  else
    foldl classify no_tiers (range ro accountMap).

(** Lines 191-195. *)
Definition publicKeys (t : tiers) : list PublicKey :=
  writableSignedAccount t ++ readOnlySignedAccount t ++
  writableUnsignedAccount t ++ readOnlyUnsignedAccount t.

(** Lines 196-199: a later position overwrites an earlier one. *)
Definition publicKeyToIdx (keys : list PublicKey) : gmap PublicKey Z :=
  foldl (λ m ik, <[ik.2 := ik.1]> m) ∅ (imap (λ idx k, (Z.of_nat idx, k)) keys).

(** Reading a Go map at an absent key gives the zero value. *)
Definition idx_of (m : gmap PublicKey Z) (k : PublicKey) : Z :=
  default 0 (m !! k).

(** Lines 201-212. *)
Definition compileInstruction (m : gmap PublicKey Z)
    (instruction : Instruction.t) : CompiledInstruction.t :=
  {| CompiledInstruction.ProgramIDIndex := idx_of m (ProgramID instruction);
     CompiledInstruction.Accounts :=
       map (λ account, idx_of m (PubKey account)) (Accounts instruction);
     CompiledInstruction.Data := Data instruction |}.

Definition NewMessage (ro : RangeOrder) (feePayer : PublicKey)
    (instructions : list Instruction.t) (recentBlockHash : string)
  : Message.t :=
  let accountMap := mergeAccounts instructions in
  let t := orderAccounts ro feePayer accountMap in
  let keys := publicKeys t in
  let toIdx := publicKeyToIdx keys in
  {| Message.Header :=
       {| NumRequireSignatures :=
            uint8 (len (writableSignedAccount t) + len (readOnlySignedAccount t));
          NumReadonlySignedAccounts := uint8 (len (readOnlySignedAccount t));
          NumReadonlyUnsignedAccounts := uint8 (len (readOnlyUnsignedAccount t)) |};
     Message.Accounts := keys;
     Message.RecentBlockHash := recentBlockHash;
     Message.Instructions := map (compileInstruction toIdx) instructions |}.

End types.

(** ** program/tokenprog/instruction.go: instruction builders *)

(** [bincode.SerializeData] belongs to package [pkg/bincode], which is not
    part of the sources at hand.  A builder hands it a struct; the model
    hands over the fields of that struct, in the order of their
    declaration, and holds for whatever serializer is plugged in. *)
Inductive field : Type :=
  | FieldUint8 (v : Z)
  | FieldUint64 (v : Z).

Class Bincode : Type := {
  bincode_SerializeData : list field → option (list byte)
}.

(** The identities of the token program and of the rent sysvar are
    variables of package [common], declared outside the sources at hand:
    the builders are modelled over any two identities. *)
Class WellKnown : Type := {
  TokenProgramID : PublicKey;
  SysVarRentPubkey : PublicKey
}.

(** A builder has no [error] result: it returns the instruction or
    panics, with a message, with the error of the serializer, or in the
    run time. *)
Inductive raised : Type :=
  | PanicMessage (msg : string)
  | PanicSerializeError
  | PanicRuntime (p : panic).

Inductive built (A : Type) : Type :=
  | Built (a : A)
  | Raises (r : raised).
Arguments Built {A} a.
Arguments Raises {A} r.

Module InitializeMultisigParam.
Record t : Type := {
  Account : PublicKey;
  Signers : list PublicKey;
  MinRequired : Z
}.
End InitializeMultisigParam.

Module TransferParam.
Record t : Type := {
  From : PublicKey;
  To : PublicKey;
  Auth : PublicKey;
  Signers : list PublicKey;
  Amount : Z
}.
End TransferParam.

Module tokenprog.

Import types.

(** Lines 11-32: the instruction tags, numbered by [iota]. *)
Definition InstructionInitializeMultisig : Z := 2.
Definition InstructionTransfer : Z := 3.

(** An [AccountMeta] holds a 32-byte key and two [bool]s. *)
Definition sizeof_AccountMeta : Z := 34.

(** [for _, signerPubkey := range param.Signers] with its [append]. *)
Definition appendSigners (accounts : list AccountMeta)
    (signers : list PublicKey) : list AccountMeta :=
  foldl (λ accounts signerPubkey,
           accounts ++ [ {| PubKey := signerPubkey;
                            IsSigner := true; IsWritable := false |} ])
        accounts signers.

(** Lines 111-147. *)
Definition InitializeMultisig `{Bincode} `{WellKnown}
    (param : InitializeMultisigParam.t) : built Instruction.t :=
  if len (InitializeMultisigParam.Signers param) <? 1 then
    Raises (PanicMessage "minimum of signer is 1")
  else if 11 <? len (InitializeMultisigParam.Signers param) then
    Raises (PanicMessage "maximum of signer is 11")
  else if uint8 (len (InitializeMultisigParam.Signers param))
          <? InitializeMultisigParam.MinRequired param then
    Raises (PanicMessage "required number too big")
  else
    match bincode_SerializeData
            [ FieldUint8 InstructionInitializeMultisig;
              FieldUint8 (InitializeMultisigParam.MinRequired param) ] with
    | None => Raises PanicSerializeError
    | Some data =>
        match make sizeof_AccountMeta
                   (2 + len (InitializeMultisigParam.Signers param)) with
        | Panic p => Raises (PanicRuntime p)
        | Ok _ | Err _ =>
            Built
              {| Instruction.ProgramID := TokenProgramID;
                 Instruction.Accounts :=
                   appendSigners
                     [ {| PubKey := InitializeMultisigParam.Account param;
                          IsSigner := false; IsWritable := true |};
                       {| PubKey := SysVarRentPubkey;
                          IsSigner := false; IsWritable := false |} ]
                     (InitializeMultisigParam.Signers param);
                 Instruction.Data := data |}
        end
    end.

(** Lines 157-181. *)
Definition Transfer `{Bincode} `{WellKnown} (param : TransferParam.t)
  : built Instruction.t :=
  match bincode_SerializeData
          [ FieldUint8 InstructionTransfer;
            FieldUint64 (TransferParam.Amount param) ] with
  | None => Raises PanicSerializeError
  | Some data =>
      match make sizeof_AccountMeta
                 (3 + len (TransferParam.Signers param)) with
      | Panic p => Raises (PanicRuntime p)
      | Ok _ | Err _ =>
          Built
            {| Instruction.ProgramID := TokenProgramID;
               Instruction.Accounts :=
                 appendSigners
                   [ {| PubKey := TransferParam.From param;
                        IsSigner := false; IsWritable := true |};
                     {| PubKey := TransferParam.To param;
                        IsSigner := false; IsWritable := true |};
                     {| PubKey := TransferParam.Auth param;
                        IsSigner :=
                          bool_decide (len (TransferParam.Signers param) = 0);
                        IsWritable := false |} ]
                   (TransferParam.Signers param);
               Instruction.Data := data |}
      end
  end.

End tokenprog.

(** The codec used for the worked examples: base58 over the Bitcoin
    alphabet.  A leading ['1'] stands for a leading zero byte; the rest is
    the big-endian number written in base 58. *)
Module Base58Btc.

Definition alphabet : string :=
  "123456789ABCDEFGHJKLMNPQRSTUVWXYZabcdefghijkmnopqrstuvwxyz".

Fixpoint digit_of (c : ascii) (alpha : string) (i : N) : option N :=
  match alpha with
  | EmptyString => None
  | String a alpha =>
      if Ascii.eqb a c then Some i else digit_of c alpha (N.succ i)
  end.

Fixpoint number_of (s : string) (acc : N) : option N :=
  match s with
  | EmptyString => Some acc
  | String c s =>
      d ← digit_of c alphabet 0%N; number_of s (acc * 58 + d)%N
  end.

Fixpoint leading_ones (s : string) : nat :=
  match s with
  | String "1" s => S (leading_ones s)
  | _ => O
  end.

Fixpoint leading_zeros (b : list byte) : nat :=
  match b with
  | x00 :: b => S (leading_zeros b)
  | _ => O
  end.

(** Digits of [n] in base [base], most significant first. *)
Fixpoint digits (fuel : nat) (base n : N) (acc : list N) : list N :=
  match fuel with
  | O => acc
  | S fuel =>
      if (n =? 0)%N then acc
      else digits fuel base (n / base)%N ((n mod base)%N :: acc)
  end.

Definition Decode (s : string) : option (list byte) :=
  n ← number_of s 0%N;
  Some (replicate (leading_ones s) x00 ++
        ((λ d, byte_of_Z (Z.of_N d)) <$> digits (N.size_nat n) 256 n [])).

Definition number_of_bytes (b : list byte) : N :=
  foldl (λ n x, n * 256 + Byte.to_N x)%N 0%N b.

Definition Encode (b : list byte) : string :=
  let n := number_of_bytes b in
  string_of_list_ascii
    (replicate (leading_zeros b) "1"%char ++
     ((λ d, default "1"%char (String.get (N.to_nat d) alphabet))
        <$> digits (N.size_nat n) 58 n [])).

End Base58Btc.

Definition base58_btc : Base58 :=
  {| base58_Decode := Base58Btc.Decode; base58_Encode := Base58Btc.Encode |}.

(** Sample identities: 32 copies of one byte. *)
Definition key_of (b : byte) : PublicKey := vreplicate 32 b.
Definition keyA : PublicKey := key_of x0a.
Definition keyB : PublicKey := key_of x0b.
Definition keyC : PublicKey := key_of x0c.
Definition keyP : PublicKey := key_of x50.

(** A block hash text of 32 bytes (all zero). *)
Definition blockhash32 : string := "11111111111111111111111111111111".

(** The scenario of section 8: one instruction of program [P] on the
    accounts [A] (signer, writable) and [B] (writable), payload [9]. *)
Definition scenario : list Instruction.t :=
  [ {| Instruction.ProgramID := keyP;
       Instruction.Accounts :=
         [ {| PubKey := keyA; IsSigner := true; IsWritable := true |};
           {| PubKey := keyB; IsSigner := false; IsWritable := true |} ];
       Instruction.Data := [x09] |} ].

(** An instruction with two accounts of one tier. *)
Definition two_writable : list Instruction.t :=
  [ {| Instruction.ProgramID := keyP;
       Instruction.Accounts :=
         [ {| PubKey := keyB; IsSigner := false; IsWritable := true |};
           {| PubKey := keyC; IsSigner := false; IsWritable := true |} ];
       Instruction.Data := [x09] |} ].

(** An instruction with a payload of [n] zero bytes. *)
Definition payload_of (n : nat) : list Instruction.t :=
  [ {| Instruction.ProgramID := keyP;
       Instruction.Accounts :=
         [ {| PubKey := keyA; IsSigner := true; IsWritable := true |} ];
       Instruction.Data := replicate n x00 |} ].

(** An instruction that asks for [B] read-only. *)
Definition readonly_B : list Instruction.t :=
  [ {| Instruction.ProgramID := keyP;
       Instruction.Accounts :=
         [ {| PubKey := keyB; IsSigner := false; IsWritable := false |} ];
       Instruction.Data := [] |} ].

(** An instruction that names its program and no account. *)
Definition program_only : list Instruction.t :=
  [ {| Instruction.ProgramID := keyP;
       Instruction.Accounts := [];
       Instruction.Data := [] |} ].

Definition scenario_msg : Message.t :=
  types.NewMessage range_forward keyA scenario blockhash32.

Definition scenario_bytes : list byte :=
  Eval vm_compute in
    match @types.Serialize base58_btc scenario_msg with
    | Ok b => b
    | _ => []
    end.

(** A serializer for the worked examples: one byte for a [uint8], eight
    bytes, the least significant first, for a [uint64]. *)
Definition sample_field (f : field) : list byte :=
  match f with
  | FieldUint8 v => [byte_of_Z v]
  | FieldUint64 v => (λ i : nat, byte_of_Z (v / 256 ^ Z.of_nat i)) <$> seq 0 8
  end.

Definition sample_bincode : Bincode :=
  {| bincode_SerializeData := λ fields, Some (concat (sample_field <$> fields)) |}.

(** Sample identities for the token program and the rent sysvar. *)
Definition sample_ids : WellKnown :=
  {| TokenProgramID := keyP; SysVarRentPubkey := key_of x52 |}.

(** A two-of-three multisig account [B] with three signers. *)
Definition sample_multisig : InitializeMultisigParam.t :=
  {| InitializeMultisigParam.Account := keyB;
     InitializeMultisigParam.Signers := [keyA; keyC; key_of x0d];
     InitializeMultisigParam.MinRequired := 2 |}.

(** A transfer of 5 units from [B] to [C] that the owner [A] signs alone. *)
Definition sample_transfer : TransferParam.t :=
  {| TransferParam.From := keyB;
     TransferParam.To := keyC;
     TransferParam.Auth := keyA;
     TransferParam.Signers := [];
     TransferParam.Amount := 5 |}.

(** ** The length prefix as the specification words it

    Section 4.1: "7 payload bits per byte, continuation bit set on all but
    the final byte (little-endian base-128, unsigned)".  [base128 n x] is
    [n] continuation bytes followed by the final byte; the minimal
    encoding of [x] has one byte per started group of 7 bits. *)
Fixpoint base128 (n : nat) (x : Z) : list byte :=
  match n with
  | O => [byte_of_Z x]
  | S n => byte_of_Z (128 + x mod 128) :: base128 n (x / 128)
  end.

Definition minimal_varint (x : Z) : list byte :=
  base128 (Z.to_nat (Z.log2 x / 7)) x.

(** ** The wire layout as the specification words it

    Section 4.5: three header bytes; the account count as a length prefix
    and the 32-byte identities; the 32 bytes of the block hash; the
    instruction count as a length prefix and, for each instruction, one
    byte of program index, the prefixed list of one-byte account indices,
    one byte of payload length and the payload. *)
Definition wire_instruction (ci : CompiledInstruction.t) : list byte :=
  [byte_of_Z (CompiledInstruction.ProgramIDIndex ci)] ++
  minimal_varint (len (CompiledInstruction.Accounts ci)) ++
  (byte_of_Z <$> CompiledInstruction.Accounts ci) ++
  [byte_of_Z (len (CompiledInstruction.Data ci))] ++
  CompiledInstruction.Data ci.

Definition wire (m : Message.t) (blockHash : list byte) : list byte :=
  [byte_of_Z (NumRequireSignatures (Message.Header m));
   byte_of_Z (NumReadonlySignedAccounts (Message.Header m));
   byte_of_Z (NumReadonlyUnsignedAccounts (Message.Header m))] ++
  minimal_varint (len (Message.Accounts m)) ++
  concat (PublicKey.bytes <$> Message.Accounts m) ++
  blockHash ++
  minimal_varint (len (Message.Instructions m)) ++
  concat (wire_instruction <$> Message.Instructions m).

(** A slice whose length the prefix encoder accepts: not empty (and, as
    every Go slice, shorter than [2^64]). *)
Definition prefixable {A} (l : list A) : Prop := 0 < len l < 2 ^ 64.

(** ** The merged privileges as the specification words them

    Section 4.2: an identity is in the mapping once an instruction names
    it, as its program or in its account list; its flags are the logical
    OR of the flags every instruction asks for it. *)
Definition mentioned (k : PublicKey) (instructions : list Instruction.t) : bool :=
  existsb (λ i, bool_decide (Instruction.ProgramID i = k) ||
                existsb (λ a, bool_decide (PubKey a = k)) (Instruction.Accounts i))
          instructions.

Definition any_flag (flag : AccountMeta → bool) (k : PublicKey)
    (instructions : list Instruction.t) : bool :=
  existsb (λ i, existsb (λ a, bool_decide (PubKey a = k) && flag a)
                        (Instruction.Accounts i))
          instructions.

(** ** The tier counts as the specification words them

    Section 8 counts identities by their merged flags.  The merged map
    lists every identity once; [identities_where P] is the number of its
    entries that satisfy [P]. *)
Definition identities_where (P : AccountMeta → bool)
    (accountMap : gmap PublicKey AccountMeta) : Z :=
  len (filter P (map_to_list accountMap).*2).

(** The entries the classification pass looks at: all of them when no fee
    payer is given, all but the fee payer's otherwise. *)
Definition classified (feePayer : PublicKey) (a : AccountMeta) : bool :=
  bool_decide (feePayer = ZeroPublicKey) || bool_decide (feePayer ≠ PubKey a).

Definition in_tier (signer writable : bool) (a : AccountMeta) : bool :=
  Bool.eqb (IsSigner a) signer && Bool.eqb (IsWritable a) writable.

(** A message every field of which the decoder reads back as the encoder
    wrote it: the encoder writes the header fields, the indices and the
    payload length as single bytes, the decoder reads them as varints, and
    the two agree on the values below 128 (with non-empty lists, for the
    encoder to accept their lengths). *)
Definition below_128 (m : Message.t) : Prop :=
  0 ≤ NumRequireSignatures (Message.Header m) < 128 ∧
  0 ≤ NumReadonlySignedAccounts (Message.Header m) < 128 ∧
  0 ≤ NumReadonlyUnsignedAccounts (Message.Header m) < 128 ∧
  0 < len (Message.Accounts m) < 128 ∧
  0 < len (Message.Instructions m) < 128 ∧
  Forall (λ ci,
    0 ≤ CompiledInstruction.ProgramIDIndex ci < 128 ∧
    0 < len (CompiledInstruction.Accounts ci) < 128 ∧
    Forall (λ idx, 0 ≤ idx < 128) (CompiledInstruction.Accounts ci) ∧
    len (CompiledInstruction.Data ci) < 128)
    (Message.Instructions m).

(** What one or more merge steps do to the entry of [k]: an entry that
    is there keeps its key and gains flags; an absent one appears when
    the steps name [k]. *)
Definition merged (o : option AccountMeta) (k : PublicKey) (p s w : bool)
  : option AccountMeta :=
  match o with
  | Some a0 =>
      Some {| PubKey := PubKey a0; IsSigner := IsSigner a0 || s;
              IsWritable := IsWritable a0 || w |}
  | None =>
      if p then Some {| PubKey := k; IsSigner := s; IsWritable := w |}
      else None
  end.

(** * Properties *)

(** ** Bytes *)

Lemma Z_of_byte_range b : 0 ≤ Z_of_byte b < 256.
Proof.
  unfold Z_of_byte. pose proof (Byte.to_N_bounded b) as Hb. lia.
Qed.

Lemma byte_of_Z_of_byte b : byte_of_Z (Z_of_byte b) = b.
Proof.
  unfold byte_of_Z, Z_of_byte. pose proof (Z_of_byte_range b) as Hb.
  unfold Z_of_byte in Hb.
  rewrite Z.mod_small by lia. by rewrite N2Z.id, Byte.of_to_N.
Qed.

Lemma Z_of_byte_of_Z z : Z_of_byte (byte_of_Z z) = z mod 256.
Proof.
  unfold byte_of_Z, Z_of_byte.
  assert (Hr : 0 ≤ z mod 256 < 256) by (apply Z.mod_pos_bound; lia).
  destruct (Byte.of_N (Z.to_N (z mod 256))) as [b|] eqn:Hb; simpl.
  - apply Byte.to_of_N in Hb. rewrite Hb. lia.
  - apply Byte.of_N_None_iff in Hb. lia.
Qed.

Lemma byte_of_Z_mod z : byte_of_Z (z mod 256) = byte_of_Z z.
Proof. unfold byte_of_Z. by rewrite Z.mod_mod by lia. Qed.

Lemma byte_of_Z_inj_small x y :
  0 ≤ x < 256 → 0 ≤ y < 256 → byte_of_Z x = byte_of_Z y → x = y.
Proof.
  intros Hx Hy Heq. apply (f_equal Z_of_byte) in Heq.
  rewrite !Z_of_byte_of_Z, !Z.mod_small in Heq; lia.
Qed.

(** A statement about all values of a byte is checked on the 256 bytes. *)
Lemma byte_values (P : Z → Prop) :
  (∀ b : byte, P (Z_of_byte b)) → ∀ y, 0 ≤ y < 256 → P y.
Proof.
  intros HP y Hy. specialize (HP (byte_of_Z y)).
  by rewrite Z_of_byte_of_Z, Z.mod_small in HP.
Qed.

Lemma lor_continuation y : 0 ≤ y < 256 → Z.lor y 128 = 128 + y mod 128.
Proof.
  revert y. apply byte_values. intros b. by destruct b.
Qed.

(** ** The length-prefix encoder *)

Lemma mod_256_128 x : (x `mod` 256) `mod` 128 = x `mod` 128.
Proof.
  change 256 with (128 * 2). rewrite Z.rem_mul_r by lia.
  rewrite (Z.mul_comm 128), Z.mod_add by lia. apply Z.mod_mod. lia.
Qed.

Lemma PutUvarint_base128 n : ∀ x buf,
  (n < length buf)%nat →
  (if n is O then 0 else 128 ^ Z.of_nat n) ≤ x < 128 ^ (Z.of_nat n + 1) →
  common.PutUvarint buf x = Ok (base128 n x ++ drop (S n) buf).
Proof.
  induction n as [|n IH]; intros x [|b rest] Hlen Hx; simpl in Hlen; try lia.
  - simpl. change (128 ^ (Z.of_nat 0 + 1)) with 128 in Hx.
    destruct (128 <=? x) eqn:Hge; [lia|]. by rewrite drop_0.
  - assert (H128 : 128 ≤ x).
    { destruct Hx as [Hx _]. etrans; [|exact Hx].
      rewrite Nat2Z.inj_succ, Z.pow_succ_r by lia.
      pose proof (Z.pow_pos_nonneg 128 (Z.of_nat n)). lia. }
    cbn [common.PutUvarint]. destruct (128 <=? x) eqn:Hge; [|lia].
    rewrite Z.shiftr_div_pow2 by lia. change (2 ^ 7) with 128.
    rewrite (IH (x / 128) rest); [|lia|].
    + cbn. do 2 f_equal. unfold uint8.
      rewrite lor_continuation by (apply Z.mod_pos_bound; lia).
      by rewrite mod_256_128.
    + assert (Hp : 0 < 128 ^ Z.of_nat n) by (apply Z.pow_pos_nonneg; lia).
      assert (E1 : 128 ^ Z.of_nat (S n) = 128 * 128 ^ Z.of_nat n)
        by (rewrite Nat2Z.inj_succ, Z.pow_succ_r; lia).
      assert (E2 : 128 ^ (Z.of_nat (S n) + 1) = 128 * (128 * 128 ^ Z.of_nat n)).
      { rewrite Z.pow_add_r, Z.pow_1_r, E1 by lia. lia. }
      assert (E3 : 128 ^ (Z.of_nat n + 1) = 128 * 128 ^ Z.of_nat n)
        by (rewrite Z.pow_add_r, Z.pow_1_r by lia; lia).
      rewrite E1, E2 in Hx. rewrite E3. split.
      * assert (128 ^ Z.of_nat n ≤ x / 128)
          by (apply Z.div_le_lower_bound; lia).
        destruct n; [lia|done].
      * apply Z.div_lt_upper_bound; lia.
Qed.

Lemma trim_loop_zeros k l :
  common.trim_loop (replicate k x00 ++ l) = common.trim_loop l.
Proof. induction k as [|k IH]; [done|]. simpl. by rewrite IH. Qed.

Lemma reverse_base128 n : ∀ x,
  ∃ l, reverse (base128 n x) = byte_of_Z (x / 128 ^ Z.of_nat n) :: l.
Proof.
  induction n as [|n IH]; intros x.
  - exists []. simpl. by rewrite Z.div_1_r.
  - destruct (IH (x / 128)) as [l Hl]. eexists.
    cbn [base128]. rewrite reverse_cons, Hl. simpl.
    rewrite Z.div_div by lia.
    rewrite Nat2Z.inj_succ, Z.pow_succ_r by lia. done.
Qed.

(** The group count of [minimal_varint] brackets the value. *)
Lemma log2_groups x :
  0 < x →
  128 ^ (Z.log2 x / 7) ≤ x < 128 ^ (Z.log2 x / 7 + 1).
Proof.
  intros Hx. pose proof (Z.log2_spec x Hx) as [Hlo Hhi].
  pose proof (Z.log2_nonneg x) as Hn.
  pose proof (Z.div_mod (Z.log2 x) 7 ltac:(lia)) as Hdm.
  pose proof (Z.mod_pos_bound (Z.log2 x) 7 ltac:(lia)) as Hm.
  assert (Hq : 0 ≤ Z.log2 x / 7) by (apply Z.div_pos; lia).
  change 128 with (2 ^ 7). rewrite <- !Z.pow_mul_r by lia.
  split.
  - etrans; [|exact Hlo]. apply Z.pow_le_mono_r; lia.
  - eapply Z.lt_le_trans; [exact Hhi|]. apply Z.pow_le_mono_r; lia.
Qed.

Lemma UintToVarLenBytes_nonzero x :
  0 < x < 2 ^ 64 → common.UintToVarLenBytes x = Ok (minimal_varint x).
Proof.
  intros [Hpos Hlt]. unfold common.UintToVarLenBytes, minimal_varint.
  pose proof (log2_groups x Hpos) as [Hlo Hhi].
  assert (Hq : 0 ≤ Z.log2 x / 7) by (apply Z.div_pos; [apply Z.log2_nonneg|lia]).
  assert (Hn : (Z.to_nat (Z.log2 x / 7) < 10)%nat).
  { assert (Z.log2 x < 64) by (apply Z.log2_lt_pow2; lia).
    assert (Z.log2 x / 7 < 10) by (apply Z.div_lt_upper_bound; lia). lia. }
  set (n := Z.to_nat (Z.log2 x / 7)) in *.
  assert (Hzn : Z.of_nat n = Z.log2 x / 7) by lia.
  rewrite (PutUvarint_base128 n).
  - cbn [mbind outcome_bind]. unfold common.trimTrailingZeroByte.
    rewrite drop_replicate, reverse_app, reverse_replicate, trim_loop_zeros.
    destruct (reverse_base128 n x) as [l Hl]. rewrite Hl. cbn [common.trim_loop].
    rewrite bool_decide_eq_true_2.
    + rewrite <- Hl. unfold mbind, outcome_bind. by rewrite reverse_involutive.
    + rewrite Hzn. intros Hz.
      assert (Hd : 1 ≤ x / 128 ^ (Z.log2 x / 7) < 128).
      { split.
        - apply Z.div_le_lower_bound; [apply Z.pow_pos_nonneg|]; lia.
        - apply Z.div_lt_upper_bound; [apply Z.pow_pos_nonneg; lia|].
          rewrite Z.pow_add_r, Z.pow_1_r in Hhi by lia. lia. }
      apply (byte_of_Z_inj_small _ 0) in Hz; lia.
  - rewrite length_replicate. unfold common.MaxVarintLen64. lia.
  - rewrite Hzn. split; [|done]. destruct n; [lia|done].
Qed.

Lemma UintToVarLenBytes_zero :
  common.UintToVarLenBytes 0 = Panic IndexOutOfRange.
Proof. reflexivity. Qed.

(** The encoder never returns an error: it gives bytes or panics. *)
Lemma UintToVarLenBytes_uint64 x :
  common.UintToVarLenBytes (uint64 x) =
  if bool_decide (uint64 x = 0) then Panic IndexOutOfRange
  else Ok (minimal_varint (uint64 x)).
Proof.
  assert (0 ≤ uint64 x < 2 ^ 64) by (apply Z.mod_pos_bound; lia).
  case_bool_decide as Hz.
  - rewrite Hz. apply UintToVarLenBytes_zero.
  - apply UintToVarLenBytes_nonzero. lia.
Qed.

(** ** Merging the account requirements *)

Section merge.

Import types.

Lemma merged_merged o k p1 s1 w1 p2 s2 w2 :
  (s1 = true → p1 = true) → (w1 = true → p1 = true) →
  merged (merged o k p1 s1 w1) k p2 s2 w2 =
  merged o k (p1 || p2) (s1 || s2) (w1 || w2).
Proof.
  intros Hs Hw. destruct o as [a0|]; simpl.
  - by rewrite !orb_assoc.
  - destruct p1; simpl; [done|].
    destruct s1; [by specialize (Hs eq_refl)|].
    destruct w1; [by specialize (Hw eq_refl)|]. done.
Qed.

Lemma merged_nothing o k : merged o k false false false = o.
Proof. destruct o as [[]|]; simpl; by rewrite ?orb_false_r. Qed.

Lemma mergeAccount_lookup m a k :
  mergeAccount m a !! k =
  merged (m !! k) k (bool_decide (PubKey a = k))
         (bool_decide (PubKey a = k) && IsSigner a)
         (bool_decide (PubKey a = k) && IsWritable a).
Proof.
  unfold mergeAccount. case_bool_decide as Hk.
  - subst k. destruct (m !! PubKey a) as [a0|] eqn:Ha;
      rewrite lookup_insert_eq; simpl; [done|by destruct a].
  - rewrite merged_nothing.
    destruct (m !! PubKey a); by rewrite lookup_insert_ne.
Qed.

Lemma foldl_mergeAccount_lookup l : ∀ m k,
  foldl mergeAccount m l !! k =
  merged (m !! k) k (existsb (λ a, bool_decide (PubKey a = k)) l)
         (existsb (λ a, bool_decide (PubKey a = k) && IsSigner a) l)
         (existsb (λ a, bool_decide (PubKey a = k) && IsWritable a) l).
Proof.
  induction l as [|a l IH]; intros m k; simpl.
  - by rewrite merged_nothing.
  - rewrite IH, mergeAccount_lookup, merged_merged;
      [done|by intros [? _]%andb_prop..].
Qed.

Lemma existsb_flag_present (flag : AccountMeta → bool) k l :
  existsb (λ a, bool_decide (PubKey a = k) && flag a) l = true →
  existsb (λ a, bool_decide (PubKey a = k)) l = true.
Proof.
  rewrite !existsb_exists. intros (a & Hin & [? _]%andb_prop). eauto.
Qed.

Lemma mergeInstruction_lookup m i k :
  mergeInstruction m i !! k =
  merged (m !! k) k (mentioned k [i]) (any_flag IsSigner k [i])
         (any_flag IsWritable k [i]).
Proof.
  unfold mergeInstruction, mentioned, any_flag. simpl.
  rewrite !orb_false_r, foldl_mergeAccount_lookup.
  set (p := existsb _ _). set (sg := existsb _ _). set (wr := existsb _ _).
  assert (Hprog :
    (match m !! Instruction.ProgramID i with
     | Some _ => m
     | None => <[Instruction.ProgramID i :=
                   {| PubKey := Instruction.ProgramID i;
                      IsSigner := false; IsWritable := false |}]> m
     end) !! k
    = merged (m !! k) k (bool_decide (Instruction.ProgramID i = k)) false false).
  { case_bool_decide as Hk.
    - subst k. destruct (m !! Instruction.ProgramID i) as [[]|] eqn:Hm.
      + rewrite Hm. simpl. by rewrite !orb_false_r.
      + by rewrite lookup_insert_eq.
    - rewrite merged_nothing.
      destruct (m !! Instruction.ProgramID i); by rewrite ?lookup_insert_ne. }
  rewrite Hprog, merged_merged; done.
Qed.

Lemma any_flag_mentioned flag k l :
  any_flag flag k l = true → mentioned k l = true.
Proof.
  unfold any_flag, mentioned. rewrite !existsb_exists.
  intros (i & Hin & Hi). exists i. split; [done|].
  apply existsb_flag_present in Hi. rewrite Hi. apply orb_true_r.
Qed.

Lemma foldl_mergeInstruction_lookup l : ∀ m k,
  foldl mergeInstruction m l !! k =
  merged (m !! k) k (mentioned k l) (any_flag IsSigner k l)
         (any_flag IsWritable k l).
Proof.
  induction l as [|i l IH]; intros m k.
  - apply eq_sym, merged_nothing.
  - cbn [foldl]. rewrite IH, mergeInstruction_lookup, merged_merged.
    + unfold mentioned, any_flag. simpl. by rewrite !orb_false_r.
    + apply any_flag_mentioned.
    + apply any_flag_mentioned.
Qed.

Lemma mergeAccounts_lookup instructions k :
  mergeAccounts instructions !! k =
  if mentioned k instructions
  then Some {| PubKey := k;
               IsSigner := any_flag IsSigner k instructions;
               IsWritable := any_flag IsWritable k instructions |}
  else None.
Proof.
  unfold mergeAccounts.
  by rewrite foldl_mergeInstruction_lookup, lookup_empty.
Qed.

(** Every entry is stored under its own identity. *)
Lemma mergeAccounts_key instructions k a :
  mergeAccounts instructions !! k = Some a → PubKey a = k.
Proof.
  rewrite mergeAccounts_lookup. destruct (mentioned k instructions); [|done].
  by intros [= <-].
Qed.

Lemma mergeAccounts_mentioned instructions k :
  mentioned k instructions = true →
  ∃ a, mergeAccounts instructions !! k = Some a ∧ PubKey a = k.
Proof. intros Hm. rewrite mergeAccounts_lookup, Hm. eauto. Qed.

End merge.

(** C5. The merged privilege of an identity is the logical OR of the
    flags all instructions ask for it: the entry of [k] in the merged map
    exists exactly when an instruction names [k], and then its signer
    (writable) flag is true exactly when some account entry of some
    instruction marks [k] signer (writable).  Merging never downgrades:
    whatever instructions follow, an entry stays, and a flag it has stays
    set. *)
Theorem merged_privilege_is_or (instructions : list Instruction.t) (k : PublicKey) :
  types.mergeAccounts instructions !! k =
    (if mentioned k instructions
     then Some {| PubKey := k;
                  IsSigner := any_flag IsSigner k instructions;
                  IsWritable := any_flag IsWritable k instructions |}
     else None) ∧
  ∀ (more : list Instruction.t) (a : AccountMeta),
    types.mergeAccounts instructions !! k = Some a →
    ∃ a', types.mergeAccounts (instructions ++ more) !! k = Some a' ∧
          (IsSigner a = true → IsSigner a' = true) ∧
          (IsWritable a = true → IsWritable a' = true).
Proof.
  split; [apply mergeAccounts_lookup|].
  intros more a Ha. unfold types.mergeAccounts in *.
  rewrite foldl_app, foldl_mergeInstruction_lookup, Ha. simpl.
  eexists. split; [done|]. simpl. by split; intros ->.
Qed.

(** ** Ordering the accounts *)

Section order.

Import types.

Lemma foldl_classify l : ∀ t,
  foldl classify t l =
  {| writableSignedAccount :=
       writableSignedAccount t ++ (PubKey <$> filter (in_tier true true) l);
     readOnlySignedAccount :=
       readOnlySignedAccount t ++ (PubKey <$> filter (in_tier true false) l);
     writableUnsignedAccount :=
       writableUnsignedAccount t ++ (PubKey <$> filter (in_tier false true) l);
     readOnlyUnsignedAccount :=
       readOnlyUnsignedAccount t ++ (PubKey <$> filter (in_tier false false) l) |}.
Proof.
  induction l as [|a l IH]; intros t.
  - destruct t. simpl. by rewrite !app_nil_r.
  - cbn [foldl]. rewrite IH. unfold classify, in_tier. rewrite !filter_cons.
    destruct (IsSigner a), (IsWritable a); simpl; by rewrite <- ?app_assoc.
Qed.

Lemma foldl_classify_skip feePayer l : ∀ t,
  foldl (λ t account, if bool_decide (feePayer = PubKey account) then t
                      else classify t account) t l =
  foldl classify t (filter (λ a, feePayer ≠ PubKey a) l).
Proof.
  induction l as [|a l IH]; intros t; [done|].
  cbn [foldl]. rewrite filter_cons. case_bool_decide as Hk.
  - rewrite decide_False by tauto. apply IH.
  - rewrite decide_True by done. cbn [foldl]. apply IH.
Qed.

(** The four lists [orderAccounts] returns, in closed form. *)
Lemma orderAccounts_tiers ro feePayer accountMap :
  let front := if bool_decide (feePayer ≠ ZeroPublicKey) then [feePayer] else [] in
  let tier s w :=
    PubKey <$> filter (λ a, classified feePayer a && in_tier s w a)
                      (range ro accountMap) in
  orderAccounts ro feePayer accountMap =
  {| writableSignedAccount := front ++ tier true true;
     readOnlySignedAccount := tier true false;
     writableUnsignedAccount := tier false true;
     readOnlyUnsignedAccount := tier false false |}.
Proof.
  intros front tier. unfold orderAccounts, front, tier, classified.
  case_bool_decide as Hfee.
  - rewrite foldl_classify_skip, foldl_classify. simpl.
    rewrite !list_filter_filter.
    f_equal; f_equal; do 2 f_equal; apply list_filter_iff; intros a;
      rewrite bool_decide_eq_false_2 by done; simpl;
      rewrite andb_True, bool_decide_spec; tauto.
  - rewrite foldl_classify. simpl.
    f_equal; f_equal; apply list_filter_iff; intros a;
      rewrite bool_decide_eq_true_2 by done; done.
Qed.

Lemma elem_of_range ro (accountMap : gmap PublicKey AccountMeta) a :
  a ∈ range ro accountMap ↔ ∃ k, accountMap !! k = Some a.
Proof.
  unfold range. rewrite (range_perm ro), list_elem_of_fmap. split.
  - intros ([k a'] & -> & Hin%elem_of_map_to_list). eauto.
  - intros [k Hk]. exists (k, a). by rewrite elem_of_map_to_list.
Qed.

Lemma filter_range_length ro accountMap (P : AccountMeta → bool) :
  len (filter P (range ro accountMap)) = identities_where P accountMap.
Proof.
  unfold identities_where, len, range. by rewrite (range_perm ro).
Qed.

(** Counting a list tier by tier. *)
Lemma tiers_partition (c : AccountMeta → bool) l :
  length (filter c l) =
  (length (filter (λ a, c a && in_tier true true a) l) +
   length (filter (λ a, c a && in_tier true false a) l) +
   length (filter (λ a, c a && in_tier false true a) l) +
   length (filter (λ a, c a && in_tier false false a) l))%nat.
Proof.
  unfold in_tier. induction l as [|a l IH]; [done|]. rewrite !filter_cons.
  destruct (c a), (IsSigner a), (IsWritable a); simpl; lia.
Qed.

Lemma signers_partition (c : AccountMeta → bool) l :
  length (filter (λ a, c a && IsSigner a) l) =
  (length (filter (λ a, c a && in_tier true true a) l) +
   length (filter (λ a, c a && in_tier true false a) l))%nat.
Proof.
  unfold in_tier. induction l as [|a l IH]; [done|]. rewrite !filter_cons.
  destruct (c a), (IsSigner a), (IsWritable a); simpl; lia.
Qed.

Lemma identities_where_nonneg P accountMap : 0 ≤ identities_where P accountMap.
Proof. unfold identities_where, len. lia. Qed.

(** The header and the length of the account list, before any
    assumption on sizes: each header field is the count reduced to a
    byte. *)
Lemma NewMessage_counts ro feePayer instructions recentBlockHash :
  let m := NewMessage ro feePayer instructions recentBlockHash in
  let fee := if bool_decide (feePayer ≠ ZeroPublicKey) then 1 else 0 in
  let n P := identities_where (λ a, classified feePayer a && P a)
                              (mergeAccounts instructions) in
  Message.Header m =
    {| NumRequireSignatures := uint8 (fee + n IsSigner);
       NumReadonlySignedAccounts := uint8 (n (in_tier true false));
       NumReadonlyUnsignedAccounts := uint8 (n (in_tier false false)) |} ∧
  len (Message.Accounts m) =
    fee + n (in_tier true true) + n (in_tier true false) +
    n (in_tier false true) + n (in_tier false false) ∧
  n IsSigner = n (in_tier true true) + n (in_tier true false).
Proof.
  intros m fee n. unfold m, NewMessage, n, publicKeys.
  rewrite orderAccounts_tiers.
  cbn [Message.Header Message.Accounts writableSignedAccount
       readOnlySignedAccount writableUnsignedAccount readOnlyUnsignedAccount].
  rewrite <- !filter_range_length with (ro := ro). unfold len.
  rewrite !length_app, !length_fmap.
  rewrite (signers_partition (classified feePayer)).
  replace (length (if bool_decide (feePayer ≠ ZeroPublicKey)
                   then [feePayer] else [])) with (Z.to_nat fee)
    by (unfold fee; by case_bool_decide).
  assert (0 ≤ fee) by (unfold fee; case_bool_decide; lia).
  split; [|split]; [f_equal; f_equal; lia|lia|lia].
Qed.

(** What does not depend on the iteration order: the header, and the
    account list up to the order of its entries. *)
Lemma NewMessage_header_any_order ro1 ro2 feePayer instructions recentBlockHash :
  Message.Header (NewMessage ro1 feePayer instructions recentBlockHash) =
  Message.Header (NewMessage ro2 feePayer instructions recentBlockHash).
Proof.
  pose proof (NewMessage_counts ro1 feePayer instructions recentBlockHash) as H1.
  pose proof (NewMessage_counts ro2 feePayer instructions recentBlockHash) as H2.
  cbv zeta in H1, H2. destruct H1 as [-> _]. by destruct H2 as [-> _].
Qed.

Lemma NewMessage_accounts_any_order ro1 ro2 feePayer instructions recentBlockHash :
  Message.Accounts (NewMessage ro1 feePayer instructions recentBlockHash) ≡ₚ
  Message.Accounts (NewMessage ro2 feePayer instructions recentBlockHash).
Proof.
  unfold NewMessage, publicKeys. rewrite !orderAccounts_tiers.
  cbn [Message.Accounts writableSignedAccount readOnlySignedAccount
       writableUnsignedAccount readOnlyUnsignedAccount].
  unfold range. by rewrite !(range_perm ro1), !(range_perm ro2).
Qed.

(** A tier of at most one account is the same under every order. *)
Lemma filter_visit ro (P : AccountMeta → bool) l r :
  filter P l = r → (length r ≤ 1)%nat → filter P (range_visit ro l) = r.
Proof.
  intros Hr Hlen.
  assert (Hp : filter P (range_visit ro l) ≡ₚ r)
    by (by rewrite (range_perm ro), Hr).
  destruct r as [|x [|y r]]; simpl in Hlen; [| |lia].
  - by apply Permutation_nil_r.
  - by apply Permutation_singleton_r.
Qed.

End order.

(** ** Compiling the instructions *)

Section compile.

Import types.

Lemma publicKeyToIdx_snoc keys x :
  publicKeyToIdx (keys ++ [x]) = <[x := len keys]> (publicKeyToIdx keys).
Proof.
  unfold publicKeyToIdx, len. rewrite imap_app, foldl_app. simpl.
  by rewrite Nat.add_0_r.
Qed.

(** The index map sends every listed key to a position that holds it,
    and knows no other key. *)
Lemma publicKeyToIdx_lookup keys k :
  match publicKeyToIdx keys !! k with
  | Some i => 0 ≤ i < len keys ∧ keys !! Z.to_nat i = Some k
  | None => k ∉ keys
  end.
Proof.
  induction keys as [|x keys IH] using rev_ind.
  - unfold publicKeyToIdx. simpl. rewrite lookup_empty. apply not_elem_of_nil.
  - rewrite publicKeyToIdx_snoc. unfold len in *. rewrite length_app. simpl.
    destruct (decide (x = k)) as [->|Hne].
    + rewrite lookup_insert_eq. split; [lia|].
      rewrite Nat2Z.id, lookup_app_r, Nat.sub_diag by lia. done.
    + rewrite lookup_insert_ne by done.
      destruct (publicKeyToIdx keys !! k) as [i|].
      * destruct IH as [Hi Hk]. split; [lia|].
        rewrite lookup_app_l by lia. done.
      * rewrite elem_of_app, list_elem_of_singleton.
        intros [?|?]; [by apply IH|by subst].
Qed.

Lemma idx_of_resolves keys k :
  k ∈ keys →
  0 ≤ idx_of (publicKeyToIdx keys) k < len keys ∧
  keys !! Z.to_nat (idx_of (publicKeyToIdx keys) k) = Some k.
Proof.
  intros Hin. unfold idx_of. pose proof (publicKeyToIdx_lookup keys k) as H.
  destruct (publicKeyToIdx keys !! k); [done|by destruct H].
Qed.

(** Every identity an instruction names is in the final account list. *)
Lemma mentioned_in_publicKeys ro feePayer instructions k :
  mentioned k instructions = true →
  k ∈ publicKeys (orderAccounts ro feePayer (mergeAccounts instructions)).
Proof.
  intros (a & Ha & Hk)%mergeAccounts_mentioned.
  assert (Hin : a ∈ range ro (mergeAccounts instructions))
    by (apply elem_of_range; eauto).
  rewrite orderAccounts_tiers. unfold publicKeys.
  cbn [writableSignedAccount readOnlySignedAccount writableUnsignedAccount
       readOnlyUnsignedAccount].
  rewrite !elem_of_app, !list_elem_of_fmap.
  destruct (classified feePayer a) eqn:Hc.
  - assert (Hf : ∀ s w, IsSigner a = s → IsWritable a = w →
      a ∈ filter (λ a, classified feePayer a && in_tier s w a)
                 (range ro (mergeAccounts instructions))).
    { intros s w <- <-. apply list_elem_of_filter. split; [|done].
      rewrite Hc. unfold in_tier. by rewrite !eqb_reflx. }
    destruct (IsSigner a) eqn:Hs, (IsWritable a) eqn:Hw;
      specialize (Hf _ _ eq_refl eq_refl); naive_solver.
  - unfold classified in Hc. apply orb_false_iff in Hc as [Hz Hp].
    apply bool_decide_eq_false in Hz. apply bool_decide_eq_false in Hp.
    apply dec_stable in Hp. rewrite bool_decide_eq_true_2 by done.
    do 2 left. rewrite Hp, Hk. apply list_elem_of_here.
Qed.

Lemma instruction_mentions instructions i :
  i ∈ instructions →
  mentioned (Instruction.ProgramID i) instructions = true ∧
  ∀ a, a ∈ Instruction.Accounts i → mentioned (PubKey a) instructions = true.
Proof.
  intros Hin%list_elem_of_In. unfold mentioned. split.
  - apply existsb_exists. exists i. split; [done|].
    by rewrite bool_decide_eq_true_2.
  - intros a Ha%list_elem_of_In. apply existsb_exists. exists i. split; [done|].
    apply orb_true_iff. right. apply existsb_exists. exists a.
    split; [done|]. by rewrite bool_decide_eq_true_2.
Qed.

(** Every compiled index is the position of the identity it stands
    for. *)
Lemma NewMessage_resolves ro feePayer instructions recentBlockHash :
  let m := NewMessage ro feePayer instructions recentBlockHash in
  Forall2 (λ i ci,
    Message.Accounts m !! Z.to_nat (CompiledInstruction.ProgramIDIndex ci)
      = Some (Instruction.ProgramID i) ∧
    0 ≤ CompiledInstruction.ProgramIDIndex ci < len (Message.Accounts m) ∧
    Forall2 (λ a idx,
      Message.Accounts m !! Z.to_nat idx = Some (PubKey a) ∧
      0 ≤ idx < len (Message.Accounts m))
      (Instruction.Accounts i) (CompiledInstruction.Accounts ci) ∧
    CompiledInstruction.Data ci = Instruction.Data i)
    instructions (Message.Instructions m).
Proof.
  intros m. unfold m, NewMessage. cbn [Message.Accounts Message.Instructions].
  apply Forall2_fmap_r, Forall_Forall2_diag, Forall_forall.
  intros i [Hp Ha]%instruction_mentions.
  unfold compileInstruction.
  cbn [CompiledInstruction.ProgramIDIndex CompiledInstruction.Accounts
       CompiledInstruction.Data].
  apply (mentioned_in_publicKeys ro feePayer), idx_of_resolves in Hp.
  split; [apply Hp|]. split; [apply Hp|]. split; [|done].
  apply Forall2_fmap_r, Forall_Forall2_diag, Forall_forall.
  intros a Hin%Ha.
  apply (mentioned_in_publicKeys ro feePayer), idx_of_resolves in Hin.
  split; apply Hin.
Qed.

End compile.

(** C8. Every [ProgramIDIndex] and every entry of every compiled
    instruction's [Accounts] is a position inside the message's account
    list. *)
Theorem indices_in_range (ro : RangeOrder) (feePayer : PublicKey)
    (instructions : list Instruction.t) (recentBlockHash : string) :
  Forall (λ ci,
    0 ≤ CompiledInstruction.ProgramIDIndex ci
      < len (Message.Accounts
               (types.NewMessage ro feePayer instructions recentBlockHash)) ∧
    Forall (λ idx,
      0 ≤ idx < len (Message.Accounts
                       (types.NewMessage ro feePayer instructions recentBlockHash)))
      (CompiledInstruction.Accounts ci))
    (Message.Instructions
       (types.NewMessage ro feePayer instructions recentBlockHash)).
Proof.
  pose proof (NewMessage_resolves ro feePayer instructions recentBlockHash) as H.
  cbv zeta in H. eapply Forall2_Forall_r; [exact H|]. apply Forall_forall.
  intros i _ ci (_ & Hp & Ha & _). split; [done|].
  eapply Forall2_Forall_r; [exact Ha|]. apply Forall_forall.
  by intros a _ idx [_ Hidx].
Qed.

(** ** The fee payer and the header *)

Lemma identities_where_ext (P Q : AccountMeta → bool) accountMap :
  (∀ a, P a = Q a) → identities_where P accountMap = identities_where Q accountMap.
Proof.
  intros HPQ. unfold identities_where. f_equal. f_equal.
  apply list_filter_iff. intros a. by rewrite HPQ.
Qed.

(** C4. A supplied fee payer is the first account of the message and
    the first entry of the writable-signed tier, and the header counts it
    among the required signatures on top of the signers found among the
    other identities, whatever the instructions asked for it. *)
Theorem fee_payer_first (ro : RangeOrder) (feePayer : PublicKey)
    (instructions : list Instruction.t) (recentBlockHash : string) :
  feePayer ≠ ZeroPublicKey →
  Message.Accounts (types.NewMessage ro feePayer instructions recentBlockHash)
    !! 0%nat = Some feePayer ∧
  head (types.writableSignedAccount
          (types.orderAccounts ro feePayer (types.mergeAccounts instructions)))
    = Some feePayer ∧
  NumRequireSignatures
    (Message.Header (types.NewMessage ro feePayer instructions recentBlockHash))
  = uint8 (1 + identities_where
                 (λ a, bool_decide (feePayer ≠ PubKey a) && IsSigner a)
                 (types.mergeAccounts instructions)).
Proof.
  intros Hfee.
  pose proof (NewMessage_counts ro feePayer instructions recentBlockHash) as H.
  cbv zeta in H. destruct H as (Hh & _ & _). rewrite Hh.
  unfold types.NewMessage, types.publicKeys. rewrite orderAccounts_tiers.
  cbn [Message.Accounts types.writableSignedAccount NumRequireSignatures].
  rewrite !bool_decide_eq_true_2 by done.
  split; [done|]. split; [done|]. do 2 f_equal.
  apply identities_where_ext. intros a. unfold classified.
  by rewrite (bool_decide_eq_false_2 (feePayer = ZeroPublicKey)) by done.
Qed.

(** C6, as the code has it.  While the account list has at most 255
    entries, the header counts the identities the classification pass
    looks at (all of them without a fee payer, all but the fee payer
    with one): the required signatures are the signers among them, plus
    one for a fee payer; the read-only signed and read-only unsigned
    counts are those of the two read-only tiers; the accounts between the
    signed prefix and the read-only unsigned suffix are exactly as many
    as the writable unsigned identities, and each of them is merged as a
    non-signer that is writable. *)
Theorem tier_arithmetic (ro : RangeOrder) (feePayer : PublicKey)
    (instructions : list Instruction.t) (recentBlockHash : string) :
  let m := types.NewMessage ro feePayer instructions recentBlockHash in
  let fee := if bool_decide (feePayer ≠ ZeroPublicKey) then 1 else 0 in
  let n P := identities_where (λ a, classified feePayer a && P a)
                              (types.mergeAccounts instructions) in
  len (Message.Accounts m) < 256 →
  NumRequireSignatures (Message.Header m) = fee + n IsSigner ∧
  NumReadonlySignedAccounts (Message.Header m) = n (in_tier true false) ∧
  NumReadonlyUnsignedAccounts (Message.Header m) = n (in_tier false false) ∧
  len (Message.Accounts m) - NumRequireSignatures (Message.Header m)
    - NumReadonlyUnsignedAccounts (Message.Header m) = n (in_tier false true) ∧
  ∀ (i : nat) (k : PublicKey),
    NumRequireSignatures (Message.Header m) ≤ Z.of_nat i
      < len (Message.Accounts m) - NumReadonlyUnsignedAccounts (Message.Header m) →
    Message.Accounts m !! i = Some k →
    ∃ a, types.mergeAccounts instructions !! k = Some a ∧
         IsSigner a = false ∧ IsWritable a = true.
Proof.
  intros m fee n Hlen.
  pose proof (NewMessage_counts ro feePayer instructions recentBlockHash) as H.
  cbv zeta in H. fold m fee n in H. destruct H as (Hh & Hl & Hs).
  pose proof (identities_where_nonneg
    (λ a, classified feePayer a && in_tier true true a)
    (types.mergeAccounts instructions)) as H1.
  pose proof (identities_where_nonneg
    (λ a, classified feePayer a && in_tier true false a)
    (types.mergeAccounts instructions)) as H2.
  pose proof (identities_where_nonneg
    (λ a, classified feePayer a && in_tier false true a)
    (types.mergeAccounts instructions)) as H3.
  pose proof (identities_where_nonneg
    (λ a, classified feePayer a && in_tier false false a)
    (types.mergeAccounts instructions)) as H4.
  fold (n (in_tier true true)) in H1. fold (n (in_tier true false)) in H2.
  fold (n (in_tier false true)) in H3. fold (n (in_tier false false)) in H4.
  assert (Hfee : 0 ≤ fee) by (unfold fee; case_bool_decide; lia).
  rewrite Hh. cbn [NumRequireSignatures NumReadonlySignedAccounts
                   NumReadonlyUnsignedAccounts].
  unfold uint8. rewrite !Z.mod_small by lia.
  split; [done|]. split; [done|]. split; [done|]. split; [lia|].
  intros i k Hi Hk. revert Hi Hk. rewrite Hl, Hs.
  unfold m, types.NewMessage, types.publicKeys. rewrite orderAccounts_tiers.
  cbn [Message.Accounts types.writableSignedAccount types.readOnlySignedAccount
       types.writableUnsignedAccount types.readOnlyUnsignedAccount].
  fold fee. unfold n. rewrite <- !filter_range_length with (ro := ro).
  unfold len. intros Hi.
  assert (Hfront : length (if bool_decide (feePayer ≠ ZeroPublicKey)
                           then [feePayer] else []) = Z.to_nat fee)
    by (unfold fee; by case_bool_decide).
  rewrite lookup_app_r by (rewrite length_app, length_fmap, Hfront; lia).
  rewrite lookup_app_r by (rewrite length_app, !length_fmap, Hfront; lia).
  rewrite lookup_app_l by (rewrite length_app, !length_fmap, Hfront; lia).
  intros Hk%list_elem_of_lookup_2.
  apply list_elem_of_fmap in Hk as (a & -> & Ha).
  apply list_elem_of_filter in Ha as [Hflags Ha].
  apply elem_of_range in Ha as [k Hk].
  pose proof (mergeAccounts_key _ _ _ Hk) as ->.
  exists a. split; [done|].
  apply andb_prop_elim in Hflags as [_ Hflags]. unfold in_tier in Hflags.
  by destruct (IsSigner a), (IsWritable a).
Qed.

(** ** Serialize *)

Section serialize.

Import types.
Context `{Base58}.

Lemma prefix_of_prefixable {A} (l : list A) :
  prefixable l →
  common.UintToVarLenBytes (uint64 (len l)) = Ok (minimal_varint (len l)).
Proof.
  intros Hl. unfold prefixable in Hl. unfold uint64.
  rewrite Z.mod_small by lia. by apply UintToVarLenBytes_nonzero.
Qed.

Lemma prefix_of_empty {A} (l : list A) :
  l = [] → common.UintToVarLenBytes (uint64 (len l)) = Panic IndexOutOfRange.
Proof. by intros ->. Qed.

Lemma foldl_append_each {A} (f : A → list byte) l : ∀ b,
  foldl (λ b x, b ++ f x) b l = b ++ concat (f <$> l).
Proof.
  induction l as [|x l IH]; intros b; simpl.
  - by rewrite app_nil_r.
  - by rewrite IH, app_assoc.
Qed.

Lemma foldl_append_byte {A} (f : A → byte) l : ∀ b,
  foldl (λ b x, b ++ [f x]) b l = b ++ (f <$> l).
Proof.
  induction l as [|x l IH]; intros b; simpl.
  - by rewrite app_nil_r.
  - by rewrite IH, <- app_assoc.
Qed.

Lemma serializeInstruction_wire b ci :
  prefixable (CompiledInstruction.Accounts ci) →
  serializeInstruction b ci = Ok (b ++ wire_instruction ci).
Proof.
  intros Hci. unfold serializeInstruction, wire_instruction.
  rewrite (prefix_of_prefixable _ Hci). unfold mbind, outcome_bind.
  rewrite foldl_append_byte. by rewrite <- !app_assoc.
Qed.

Lemma serializeInstructions_wire l : ∀ b,
  Forall (λ ci, prefixable (CompiledInstruction.Accounts ci)) l →
  serializeInstructions b l = Ok (b ++ concat (wire_instruction <$> l)).
Proof.
  induction l as [|ci l IH]; intros b Hl; simpl.
  - by rewrite app_nil_r.
  - inversion Hl as [|?? Hci Hl']; subst.
    rewrite (serializeInstruction_wire _ _ Hci). unfold mbind, outcome_bind.
    rewrite (IH _ Hl'). by rewrite <- app_assoc.
Qed.

(** [Serialize] checks nothing but what the prefix encoder and the text
    codec report: whenever the three lists it prefixes are not empty and
    the block hash text decodes, the result is the wire layout. *)
Lemma Serialize_wire m blockHash :
  prefixable (Message.Accounts m) →
  prefixable (Message.Instructions m) →
  Forall (λ ci, prefixable (CompiledInstruction.Accounts ci))
         (Message.Instructions m) →
  base58_Decode (Message.RecentBlockHash m) = Some blockHash →
  Serialize m = Ok (wire m blockHash).
Proof.
  intros Ha Hi Hci Hh. unfold Serialize, wire.
  rewrite (prefix_of_prefixable _ Ha). unfold mbind at 1, outcome_bind at 1.
  rewrite Hh, (prefix_of_prefixable _ Hi). unfold mbind, outcome_bind.
  rewrite (serializeInstructions_wire _ _ Hci), foldl_append_each.
  f_equal. simpl. by rewrite <- !app_assoc.
Qed.

Lemma Serialize_no_accounts m :
  Message.Accounts m = [] → Serialize m = Panic IndexOutOfRange.
Proof.
  intros Ha. unfold Serialize. by rewrite (prefix_of_empty _ Ha).
Qed.

Lemma Serialize_no_instructions m blockHash :
  Message.Instructions m = [] →
  base58_Decode (Message.RecentBlockHash m) = Some blockHash →
  Serialize m = Panic IndexOutOfRange.
Proof.
  intros Hi Hh. unfold Serialize. rewrite Hh, Hi.
  rewrite (UintToVarLenBytes_uint64 (len (Message.Accounts m))).
  by case_bool_decide.
Qed.

Lemma Serialize_undecodable m :
  prefixable (Message.Accounts m) →
  base58_Decode (Message.RecentBlockHash m) = None →
  Serialize m = Err Base58DecodeError.
Proof.
  intros Ha Hh. unfold Serialize.
  rewrite (prefix_of_prefixable _ Ha). unfold mbind, outcome_bind.
  by rewrite Hh.
Qed.

End serialize.

(** ** MessageDeserialize on what Serialize wrote *)

Section deserialize.

Import types.
Context `{Base58}.

Ltac zbool :=
  repeat match goal with
  | H : (_ <? _) = true |- _ => apply Z.ltb_lt in H
  | H : (_ <? _) = false |- _ => apply Z.ltb_ge in H
  | H : (_ <=? _) = true |- _ => apply Z.leb_le in H
  | H : (_ <=? _) = false |- _ => apply Z.leb_gt in H
  end.

Lemma of_bytes_bytes (k : PublicKey) : PublicKey.of_bytes (PublicKey.bytes k) = k.
Proof.
  apply vec_eq; intros i. unfold PublicKey.of_bytes, PublicKey.bytes.
  rewrite lookup_fun_to_vec.
  by rewrite (proj1 (vlookup_lookup k i (k !!! i)) eq_refl).
Qed.

Lemma length_bytes (k : PublicKey) : length (PublicKey.bytes k) = 32%nat.
Proof. apply length_vec_to_list. Qed.

Lemma of_bytes_take (k : PublicKey) rest :
  PublicKey.of_bytes (take 32 (PublicKey.bytes k ++ rest)) = k.
Proof.
  rewrite take_app_length' by (by rewrite length_bytes). apply of_bytes_bytes.
Qed.

Lemma int64_small x : 0 ≤ x < 2 ^ 63 → int64 x = x.
Proof. intros Hx. unfold int64. rewrite Z.mod_small; lia. Qed.

Lemma parseUvarint_small v rest :
  0 ≤ v < 128 → parseUvarint (byte_of_Z v :: rest) = (v, false, rest).
Proof.
  intros Hv. unfold parseUvarint. cbn [common.MaxVarintLen64 uvarint_from].
  rewrite Z_of_byte_of_Z, Z.mod_small by lia.
  destruct (v <? 128) eqn:Hlt; [|zbool; lia].
  rewrite Z.shiftl_0_r, Z.lor_0_l. unfold uint64. by rewrite Z.mod_small by lia.
Qed.

Lemma minimal_varint_small v : 0 < v < 128 → minimal_varint v = [byte_of_Z v].
Proof.
  intros Hv. unfold minimal_varint.
  assert (Z.log2 v < 7) by (apply Z.log2_lt_pow2; lia).
  pose proof (Z.log2_nonneg v). by rewrite Z.div_small by lia.
Qed.

Lemma parseHeaderField_small i v rest :
  0 ≤ v < 128 → parseHeaderField i (byte_of_Z v :: rest) = Ok (v, rest).
Proof.
  intros Hv. unfold parseHeaderField. rewrite parseUvarint_small by done.
  destruct (255 <? v) eqn:Hgt; [zbool; lia|]. unfold uint8. by rewrite Z.mod_small by lia.
Qed.

Lemma length_concat_bytes (keys : list PublicKey) :
  len (concat (PublicKey.bytes <$> keys)) = 32 * len keys.
Proof.
  unfold len. induction keys as [|k keys IH]; [done|].
  cbn [fmap list_fmap concat length]. rewrite length_app, length_bytes. lia.
Qed.

Lemma parseAccounts_wire keys : ∀ accounts rest,
  parseAccounts (length keys) accounts
    (concat (PublicKey.bytes <$> keys) ++ rest)
  = Ok (accounts ++ keys, rest).
Proof.
  induction keys as [|k keys IH]; intros accounts rest.
  - simpl. by rewrite app_nil_r.
  - cbn [length fmap list_fmap concat parseAccounts]. rewrite <- app_assoc.
    destruct (len _ <? 32) eqn:Hlt.
    { unfold len in Hlt. rewrite length_app, length_bytes in Hlt. zbool. lia. }
    rewrite of_bytes_take, drop_app_length' by (by rewrite length_bytes).
    rewrite IH. by rewrite <- app_assoc.
Qed.

Lemma parseAccountIdxs_wire i idxs : ∀ j accounts rest,
  Forall (λ idx, 0 ≤ idx < 128) idxs →
  parseAccountIdxs i j (length idxs) accounts ((byte_of_Z <$> idxs) ++ rest)
  = Ok (accounts ++ idxs, rest).
Proof.
  induction idxs as [|idx idxs IH]; intros j accounts rest Hsmall.
  - simpl. by rewrite app_nil_r.
  - inversion Hsmall as [|?? Hidx Hrest]; subst.
    cbn [length fmap list_fmap app parseAccountIdxs].
    rewrite parseUvarint_small by done. rewrite int64_small by lia.
    rewrite (IH _ _ _ Hrest). by rewrite <- app_assoc.
Qed.

Lemma parseInstruction_wire i ci rest :
  0 ≤ CompiledInstruction.ProgramIDIndex ci < 128 →
  0 < len (CompiledInstruction.Accounts ci) < 128 →
  Forall (λ idx, 0 ≤ idx < 128) (CompiledInstruction.Accounts ci) →
  len (CompiledInstruction.Data ci) < 128 →
  parseInstruction i (wire_instruction ci ++ rest) = Ok (ci, rest).
Proof.
  destruct ci as [programID accounts data].
  cbn [CompiledInstruction.ProgramIDIndex CompiledInstruction.Accounts
       CompiledInstruction.Data].
  intros Hp Hn Hidx Hdata. unfold parseInstruction, wire_instruction.
  cbn [CompiledInstruction.ProgramIDIndex CompiledInstruction.Accounts
       CompiledInstruction.Data].
  rewrite minimal_varint_small by done. cbn [app].
  rewrite !parseUvarint_small by lia.
  unfold make, sizeof_int, maxAlloc.
  destruct ((len accounts <? 2 ^ 63) && (8 * len accounts <=? 2 ^ 48)) eqn:Hmk;
    [|apply andb_false_iff in Hmk as [?|?]; zbool; lia].
  unfold mbind at 1, outcome_bind at 1.
  rewrite (int64_small (len accounts)), (int64_small programID) by lia.
  replace (Z.to_nat (len accounts)) with (length accounts) by (unfold len; lia).
  rewrite <- app_assoc, (parseAccountIdxs_wire _ _ _ _ _ Hidx).
  unfold mbind, outcome_bind. cbn [app].
  assert (0 ≤ len data) by (unfold len; lia).
  rewrite parseUvarint_small by lia.
  destruct (len (data ++ rest) <? len data) eqn:Hlt.
  { unfold len in Hlt. rewrite length_app in Hlt. zbool. lia. }
  replace (Z.to_nat (len data)) with (length data) by (unfold len; lia).
  by rewrite take_app_length, drop_app_length.
Qed.

Lemma parseInstructions_wire l : ∀ i instructions rest,
  Forall (λ ci,
    0 ≤ CompiledInstruction.ProgramIDIndex ci < 128 ∧
    0 < len (CompiledInstruction.Accounts ci) < 128 ∧
    Forall (λ idx, 0 ≤ idx < 128) (CompiledInstruction.Accounts ci) ∧
    len (CompiledInstruction.Data ci) < 128) l →
  parseInstructions i (length l) instructions
    (concat (wire_instruction <$> l) ++ rest)
  = Ok (instructions ++ l, rest).
Proof.
  induction l as [|ci l IH]; intros i instructions rest Hl.
  - simpl. by rewrite app_nil_r.
  - inversion Hl as [|?? (Hp & Hn & Hidx & Hdata) Hl']; subst.
    cbn [length fmap list_fmap concat parseInstructions]. rewrite <- app_assoc.
    rewrite parseInstruction_wire by done. unfold mbind, outcome_bind.
    rewrite (IH _ _ _ Hl'). by rewrite <- app_assoc.
Qed.

(** The decoder inverts the wire layout of a message all of whose counts,
    indices and payload lengths are below 128, given a 32-byte block hash
    in the text form the codec prints it in. *)
Lemma MessageDeserialize_wire m blockHash :
  below_128 m →
  length blockHash = 32%nat →
  base58_Encode blockHash = Message.RecentBlockHash m →
  MessageDeserialize (wire m blockHash) = Ok m.
Proof.
  destruct m as [[h1 h2 h3] keys hash instructions].
  unfold below_128.
  cbn [Message.Header Message.Accounts Message.RecentBlockHash
       Message.Instructions NumRequireSignatures NumReadonlySignedAccounts
       NumReadonlyUnsignedAccounts].
  intros (H1 & H2 & H3 & Hk & Hi & Hci) Hlen Henc.
  unfold MessageDeserialize, wire.
  cbn [Message.Header Message.Accounts Message.RecentBlockHash
       Message.Instructions NumRequireSignatures NumReadonlySignedAccounts
       NumReadonlyUnsignedAccounts app].
  rewrite parseHeaderField_small by done. unfold mbind at 1, outcome_bind at 1.
  rewrite parseHeaderField_small by done. unfold mbind at 1, outcome_bind at 1.
  rewrite parseHeaderField_small by done. unfold mbind at 1, outcome_bind at 1.
  rewrite !minimal_varint_small by done. cbn [app].
  rewrite parseUvarint_small by lia.
  rewrite (int64_small (len keys)) by lia.
  rewrite (int64_small (len keys * 32)) by lia.
  destruct (len _ <? len keys * 32) eqn:Hlt.
  { unfold len at 1 in Hlt. rewrite length_app in Hlt.
    pose proof (length_concat_bytes keys) as Hc. unfold len at 1 in Hc.
    zbool. lia. }
  unfold make, sizeof_PublicKey, sizeof_CompiledInstruction, maxAlloc.
  destruct ((len keys <? 2 ^ 63) && (32 * len keys <=? 2 ^ 48)) eqn:Hmk;
    [|apply andb_false_iff in Hmk as [?|?]; zbool; lia].
  unfold mbind at 1, outcome_bind at 1.
  replace (Z.to_nat (len keys)) with (length keys) by (unfold len; lia).
  rewrite parseAccounts_wire.
  unfold mbind at 1, outcome_bind at 1. cbn [app].
  destruct (len _ <? 32) eqn:Hlt32.
  { unfold len in Hlt32. rewrite length_app in Hlt32. zbool. lia. }
  rewrite <- Hlen, take_app_length, drop_app_length, Henc. cbn [app].
  rewrite parseUvarint_small by lia.
  destruct ((len instructions <? 2 ^ 63) && (56 * len instructions <=? 2 ^ 48))
    eqn:Hmk'; [|apply andb_false_iff in Hmk' as [?|?]; zbool; lia].
  unfold mbind at 1, outcome_bind at 1.
  rewrite (int64_small (len instructions)) by lia.
  replace (Z.to_nat (len instructions)) with (length instructions)
    by (unfold len; lia).
  rewrite <- (app_nil_r (concat _)), (parseInstructions_wire _ _ _ _ Hci).
  done.
Qed.

(** Where the round trip holds: a message below 128 everywhere, with a
    well-formed block hash, is serialized and read back unchanged. *)
Lemma round_trip_below_128 m blockHash :
  below_128 m →
  base58_Decode (Message.RecentBlockHash m) = Some blockHash →
  length blockHash = 32%nat →
  base58_Encode blockHash = Message.RecentBlockHash m →
  Serialize m ≫= MessageDeserialize = Ok m.
Proof.
  intros Hm Hdec Hlen Henc.
  pose proof Hm as (_ & _ & _ & Hk & Hi & Hci).
  rewrite (Serialize_wire m blockHash); [|split; lia|split; lia| |done].
  - by apply MessageDeserialize_wire.
  - eapply Forall_impl; [exact Hci|]. cbv beta.
    intros ci (_ & Hn & _). split; lia.
Qed.

End deserialize.

(** Without a fee payer the header counts are those of the merged map
    itself. *)
Lemma tier_arithmetic_without_fee_payer ro instructions recentBlockHash :
  len (Message.Accounts
         (types.NewMessage ro ZeroPublicKey instructions recentBlockHash)) < 256 →
  Message.Header (types.NewMessage ro ZeroPublicKey instructions recentBlockHash) =
  {| NumRequireSignatures :=
       identities_where IsSigner (types.mergeAccounts instructions);
     NumReadonlySignedAccounts :=
       identities_where (in_tier true false) (types.mergeAccounts instructions);
     NumReadonlyUnsignedAccounts :=
       identities_where (in_tier false false) (types.mergeAccounts instructions) |}.
Proof.
  intros Hlen.
  pose proof (NewMessage_counts ro ZeroPublicKey instructions recentBlockHash) as H.
  cbv zeta in H. destruct H as (Hh & Hl & Hs). rewrite Hh.
  rewrite bool_decide_eq_false_2 in * by (by intros []).
  assert (Hext : ∀ P : AccountMeta → bool,
    identities_where (λ a, classified ZeroPublicKey a && P a)
                     (types.mergeAccounts instructions)
    = identities_where P (types.mergeAccounts instructions)).
  { intros P. apply identities_where_ext. intros a. unfold classified.
    by rewrite bool_decide_eq_true_2. }
  rewrite !Hext in *.
  pose proof (identities_where_nonneg (in_tier true true)
                (types.mergeAccounts instructions)).
  pose proof (identities_where_nonneg (in_tier true false)
                (types.mergeAccounts instructions)).
  pose proof (identities_where_nonneg (in_tier false true)
                (types.mergeAccounts instructions)).
  pose proof (identities_where_nonneg (in_tier false false)
                (types.mergeAccounts instructions)).
  unfold uint8. rewrite !Z.mod_small by lia. f_equal; lia.
Qed.

(** C9, as the code has it.  Neither step rejects a message for its
    size: [NewMessage] has no error result, and [Serialize] returns the
    wire layout whenever the account list, the instruction list and every
    instruction's index list are not empty and the block hash text
    decodes; in that layout every program index, account index and
    payload length is the single byte [byte_of_Z] makes of it, its value
    modulo 256. *)
Theorem Serialize_has_no_size_check `{Base58} (m : Message.t)
    (blockHash : list byte) :
  prefixable (Message.Accounts m) →
  prefixable (Message.Instructions m) →
  Forall (λ ci, prefixable (CompiledInstruction.Accounts ci))
         (Message.Instructions m) →
  base58_Decode (Message.RecentBlockHash m) = Some blockHash →
  types.Serialize m = Ok (wire m blockHash) ∧
  Forall (λ ci,
    Z_of_byte (byte_of_Z (CompiledInstruction.ProgramIDIndex ci))
      = CompiledInstruction.ProgramIDIndex ci mod 256 ∧
    Z_of_byte (byte_of_Z (len (CompiledInstruction.Data ci)))
      = len (CompiledInstruction.Data ci) mod 256)
    (Message.Instructions m).
Proof.
  intros Ha Hi Hci Hh. split; [by apply Serialize_wire|].
  apply Forall_forall. intros ci _. by rewrite !Z_of_byte_of_Z.
Qed.

(** C10, as the code has it.  [UintToVarLenBytes 0] panics, so
    [Serialize] panics on a message without accounts, and on a message
    without instructions once its block hash text has decoded (a text
    that does not decode is reported as an error before the instruction
    count is encoded); every nonzero [uint64] is encoded as its minimal
    base-128 varint, 300 as the bytes [0xAC, 0x02]. *)
Theorem UintToVarLenBytes_trims_to_minimal `{Base58} :
  common.UintToVarLenBytes 0 = Panic IndexOutOfRange ∧
  (∀ m, Message.Accounts m = [] → types.Serialize m = Panic IndexOutOfRange) ∧
  (∀ m blockHash,
     Message.Instructions m = [] →
     base58_Decode (Message.RecentBlockHash m) = Some blockHash →
     types.Serialize m = Panic IndexOutOfRange) ∧
  (∀ l, 0 < l < 2 ^ 64 → common.UintToVarLenBytes l = Ok (minimal_varint l)) ∧
  common.UintToVarLenBytes 300 = Ok [xac; x02].
Proof.
  split; [apply UintToVarLenBytes_zero|].
  split; [apply Serialize_no_accounts|].
  split; [apply Serialize_no_instructions|].
  split; [apply UintToVarLenBytes_nonzero|]. reflexivity.
Qed.

(** ** Worked inputs *)

Section worked.

Import types.
#[local] Existing Instance base58_btc.

Lemma keyA_supplied : keyA ≠ ZeroPublicKey.
Proof. apply (bool_decide_unpack _). by vm_compute. Qed.

Lemma scenario_serializes : Serialize scenario_msg = Ok scenario_bytes.
Proof. by vm_compute. Qed.

(** The concrete scenario of section 8, under every iteration order:
    accounts [A, B, P], header (1, 0, 1), the instruction compiled to
    program index 2 and account indices [0, 1]. *)
Example scenario_compiles ro :
  NewMessage ro keyA scenario blockhash32 =
  {| Message.Header := {| NumRequireSignatures := 1;
                          NumReadonlySignedAccounts := 0;
                          NumReadonlyUnsignedAccounts := 1 |};
     Message.Accounts := [keyA; keyB; keyP];
     Message.RecentBlockHash := blockhash32;
     Message.Instructions :=
       [ {| CompiledInstruction.ProgramIDIndex := 2;
            CompiledInstruction.Accounts := [0; 1];
            CompiledInstruction.Data := [x09] |} ] |}.
Proof.
  unfold NewMessage. rewrite orderAccounts_tiers. unfold range.
  erewrite (filter_visit ro (λ a, classified keyA a && in_tier true true a));
    [|by vm_compute|simpl; lia].
  erewrite (filter_visit ro (λ a, classified keyA a && in_tier true false a));
    [|by vm_compute|simpl; lia].
  erewrite (filter_visit ro (λ a, classified keyA a && in_tier false true a));
    [|by vm_compute|simpl; lia].
  erewrite (filter_visit ro (λ a, classified keyA a && in_tier false false a));
    [|by vm_compute|simpl; lia].
  by vm_compute.
Qed.

(** The varint scenario of section 8: 300 is the two bytes [0xAC, 0x02],
    and decoding them yields 300 with the cursor two bytes on. *)
Example varint_300 :
  common.UintToVarLenBytes 300 = Ok [xac; x02] ∧
  parseUvarint [xac; x02; x09] = (300, false, [x09]).
Proof. split; by vm_compute. Qed.

(** C1 on the code: the same instruction, fee payer and block hash
    compile to two different account orders, hence to different bytes,
    under two iteration orders of the account map. *)
Theorem compiling_twice_differs :
  Message.Accounts (NewMessage range_forward keyA two_writable blockhash32)
    = [keyA; keyC; keyB; keyP] ∧
  Message.Accounts (NewMessage range_backward keyA two_writable blockhash32)
    = [keyA; keyB; keyC; keyP] ∧
  Serialize (NewMessage range_forward keyA two_writable blockhash32)
    ≠ Serialize (NewMessage range_backward keyA two_writable blockhash32).
Proof.
  split; [by vm_compute|]. split; [by vm_compute|].
  vm_compute. intros [= ?].
Qed.

(** C2 on the code: the serialized scenario message is 139 bytes and
    decodes to the message; cut one byte short, inside the payload of
    its instruction, it makes the decoder panic.  (Every shorter prefix
    is answered with an error.) *)
Theorem truncated_payload_panics :
  Serialize scenario_msg = Ok scenario_bytes ∧
  length scenario_bytes = 139%nat ∧
  MessageDeserialize scenario_bytes = Ok scenario_msg ∧
  MessageDeserialize (take 138 scenario_bytes) = Panic SliceBoundsOutOfRange ∧
  Forall (λ n, ∃ e, MessageDeserialize (take n scenario_bytes) = Err e)
         (seq 0 138).
Proof.
  split; [by vm_compute|]. split; [by vm_compute|].
  split; [by vm_compute|]. split; [by vm_compute|].
  repeat (constructor; [eexists; by vm_compute|]). constructor.
Qed.

(** C3 on the code: a compiled message whose instruction carries 128
    payload bytes serializes, and the bytes decode without error to a
    message whose instruction has an empty payload; a compiled message
    with an instruction that names no account, or with no instruction,
    does not serialize at all. *)
Theorem round_trip_loses_payload :
  ∃ b m',
    Serialize (NewMessage range_forward keyA (payload_of 128) blockhash32) = Ok b ∧
    MessageDeserialize b = Ok m' ∧
    CompiledInstruction.Data <$>
      Message.Instructions
        (NewMessage range_forward keyA (payload_of 128) blockhash32)
      = [replicate 128 x00] ∧
    CompiledInstruction.Data <$> Message.Instructions m' = [[]] ∧
    Serialize (NewMessage range_forward keyA program_only blockhash32)
      = Panic IndexOutOfRange ∧
    Serialize (NewMessage range_forward keyA [] blockhash32)
      = Panic IndexOutOfRange.
Proof.
  do 2 eexists. split; [by vm_compute|]. split; [by vm_compute|].
  repeat split; by vm_compute.
Qed.

(** C7 on the code: the text ["2"] decodes to one byte, and the
    message that carries it as block hash serializes, the one byte in
    the place of the 32. *)
Theorem short_block_hash_is_serialized :
  base58_Decode "2" = Some [x01] ∧
  Serialize (NewMessage range_forward keyA scenario "2")
    = Ok (wire (NewMessage range_forward keyA scenario "2") [x01]) ∧
  len (wire (NewMessage range_forward keyA scenario "2") [x01])
    = len scenario_bytes - 31.
Proof. repeat split; by vm_compute. Qed.

(** C6 as stated fails: with fee payer [A] and one instruction that names
    only its program, no merged identity is a signer, and the header asks
    for one signature. *)
Lemma tier_arithmetic_counterexample :
  NumRequireSignatures
    (Message.Header (NewMessage range_forward keyA program_only blockhash32)) = 1 ∧
  identities_where IsSigner (mergeAccounts program_only) = 0.
Proof. split; by vm_compute. Qed.

(** C9 as stated fails: a payload of 256 bytes is serialized, its length
    written as the byte 0. *)
Lemma oversize_payload_counterexample :
  len <$> (Instruction.Data <$> payload_of 256) = [256] ∧
  Serialize (NewMessage range_forward keyA (payload_of 256) blockhash32)
    = Ok (wire (NewMessage range_forward keyA (payload_of 256) blockhash32)
               (replicate 32 x00)) ∧
  byte_of_Z 256 = x00.
Proof. repeat split; by vm_compute. Qed.

(** C10 as stated fails: a message without instructions whose block hash
    text does not decode gets an error, not a panic. *)
Lemma undecodable_hash_counterexample :
  Message.Instructions (NewMessage range_forward keyA [] "0") = [] ∧
  Serialize (NewMessage range_forward keyA [] "0") = Err Base58DecodeError.
Proof. split; by vm_compute. Qed.

(** The hypotheses of the conditional theorems hold on the worked
    inputs. *)
Lemma fee_payer_first_witness :
  keyA ≠ ZeroPublicKey ∧
  Message.Accounts (NewMessage range_forward keyA program_only blockhash32)
    !! 0%nat = Some keyA.
Proof.
  split; [exact keyA_supplied|].
  exact (proj1 (fee_payer_first range_forward keyA program_only blockhash32
                  keyA_supplied)).
Defined.

Lemma merged_privilege_is_or_witness :
  mergeAccounts scenario !! keyB
    = Some {| PubKey := keyB; IsSigner := false; IsWritable := true |} ∧
  ∃ a', mergeAccounts (scenario ++ readonly_B) !! keyB = Some a' ∧
        IsWritable a' = true.
Proof.
  assert (Hb : mergeAccounts scenario !! keyB
               = Some {| PubKey := keyB; IsSigner := false; IsWritable := true |})
    by (by vm_compute).
  split; [exact Hb|].
  destruct (proj2 (merged_privilege_is_or scenario keyB) readonly_B _ Hb)
    as (a' & Ha' & _ & Hw).
  exists a'. split; [exact Ha'|]. exact (Hw eq_refl).
Defined.

Lemma tier_arithmetic_witness :
  len (Message.Accounts (NewMessage range_forward keyA scenario blockhash32)) < 256 ∧
  NumReadonlyUnsignedAccounts
    (Message.Header (NewMessage range_forward keyA scenario blockhash32))
  = identities_where (λ a, classified keyA a && in_tier false false a)
                     (mergeAccounts scenario).
Proof.
  assert (Hlen : len (Message.Accounts
                        (NewMessage range_forward keyA scenario blockhash32)) < 256)
    by (by vm_compute).
  split; [exact Hlen|].
  exact (proj1 (proj2 (proj2
    (tier_arithmetic range_forward keyA scenario blockhash32 Hlen)))).
Defined.

Lemma Serialize_has_no_size_check_witness :
  prefixable (Message.Accounts scenario_msg) ∧
  prefixable (Message.Instructions scenario_msg) ∧
  Forall (λ ci, prefixable (CompiledInstruction.Accounts ci))
         (Message.Instructions scenario_msg) ∧
  base58_Decode (Message.RecentBlockHash scenario_msg) = Some (replicate 32 x00) ∧
  Serialize scenario_msg = Ok (wire scenario_msg (replicate 32 x00)).
Proof.
  assert (Ha : prefixable (Message.Accounts scenario_msg))
    by (split; by vm_compute).
  assert (Hi : prefixable (Message.Instructions scenario_msg))
    by (split; by vm_compute).
  assert (Hci : Forall (λ ci, prefixable (CompiledInstruction.Accounts ci))
                       (Message.Instructions scenario_msg))
    by (repeat constructor; by vm_compute).
  assert (Hh : base58_Decode (Message.RecentBlockHash scenario_msg)
               = Some (replicate 32 x00)) by (by vm_compute).
  repeat (split; [assumption|]).
  exact (proj1 (Serialize_has_no_size_check scenario_msg _ Ha Hi Hci Hh)).
Defined.

Lemma UintToVarLenBytes_trims_to_minimal_witness :
  0 < 300 < 2 ^ 64 ∧
  common.UintToVarLenBytes 300 = Ok (minimal_varint 300) ∧
  Message.Accounts (NewMessage range_forward ZeroPublicKey [] blockhash32) = [] ∧
  Serialize (NewMessage range_forward ZeroPublicKey [] blockhash32)
    = Panic IndexOutOfRange ∧
  Message.Instructions (NewMessage range_forward keyA [] blockhash32) = [] ∧
  base58_Decode
    (Message.RecentBlockHash (NewMessage range_forward keyA [] blockhash32))
    = Some (replicate 32 x00) ∧
  Serialize (NewMessage range_forward keyA [] blockhash32)
    = Panic IndexOutOfRange.
Proof.
  destruct UintToVarLenBytes_trims_to_minimal as (_ & Hacc & Hins & Hl & _).
  assert (H300 : 0 < 300 < 2 ^ 64) by lia.
  assert (Ha : Message.Accounts
                 (NewMessage range_forward ZeroPublicKey [] blockhash32) = [])
    by (by vm_compute).
  assert (Hh : base58_Decode
                 (Message.RecentBlockHash
                    (NewMessage range_forward keyA [] blockhash32))
               = Some (replicate 32 x00)) by (by vm_compute).
  split; [exact H300|]. split; [exact (Hl 300 H300)|].
  split; [exact Ha|]. split; [exact (Hacc _ Ha)|].
  split; [reflexivity|]. split; [exact Hh|].
  exact (Hins (NewMessage range_forward keyA [] blockhash32) _ eq_refl Hh).
Defined.

End worked.

(** * Further properties of the code *)

(** ** common/byte.go *)

Lemma trim_loop_spec rb :
  match common.trim_loop rb with
  | Ok r => ∃ n x r', r = x :: r' ∧ x ≠ x00 ∧ rb = replicate n x00 ++ r
  | Panic p => p = IndexOutOfRange ∧ Forall (λ x, x = x00) rb
  | Err _ => False
  end.
Proof.
  induction rb as [|x rb IH]; simpl.
  - by split.
  - case_bool_decide as Hx.
    + exists 0%nat, x, rb. by split.
    + subst x.
      destruct (common.trim_loop rb) as [r|e|p]; [|done|].
      * destruct IH as (n & y & r' & -> & Hy & ->).
        exists (S n), y, r'. by split.
      * destruct IH as [-> IH]. split; [done|]. by constructor.
Qed.

(** X1. [trimTrailingZeroByte] cuts a slice after its last nonzero byte; on a
    slice without a nonzero byte (the empty one included) it panics with an
    index out of range; it never returns an error. *)
Theorem trimTrailingZeroByte_cuts_after_last_nonzero (b : list byte) :
  match common.trimTrailingZeroByte b with
  | Ok r => ∃ n r' x, r = r' ++ [x] ∧ x ≠ x00 ∧ b = r ++ replicate n x00
  | Panic p => p = IndexOutOfRange ∧ Forall (λ x, x = x00) b
  | Err _ => False
  end.
Proof.
  unfold common.trimTrailingZeroByte.
  pose proof (trim_loop_spec (reverse b)) as H.
  destruct (common.trim_loop (reverse b)) as [r|e|p]; simpl; [|done|].
  - destruct H as (n & x & r' & -> & Hx & Hb).
    exists n, (reverse r'), x. rewrite reverse_cons. split; [done|]. split; [done|].
    apply (f_equal reverse) in Hb.
    by rewrite reverse_involutive, reverse_app, reverse_replicate, reverse_cons in Hb.
  - destruct H as [-> H]. split; [done|].
    rewrite <- (reverse_involutive b). by apply Forall_reverse.
Qed.

Lemma base128_shape n : ∀ x,
  ∃ bs, base128 n x = bs ++ [byte_of_Z (x / 128 ^ Z.of_nat n)] ∧
        length bs = n ∧ Forall (λ b, 128 ≤ Z_of_byte b) bs.
Proof.
  induction n as [|n IH]; intros x.
  - exists []. simpl. by rewrite Z.div_1_r.
  - destruct (IH (x / 128)) as (bs & Hbs & Hlen & Hall).
    exists (byte_of_Z (128 + x mod 128) :: bs). cbn [base128]. rewrite Hbs.
    rewrite Z.div_div by lia.
    rewrite Nat2Z.inj_succ, Z.pow_succ_r by lia.
    split; [done|]. split; [simpl; lia|]. constructor; [|done].
    pose proof (Z.mod_pos_bound x 128 ltac:(lia)).
    rewrite Z_of_byte_of_Z, Z.mod_small; lia.
Qed.

(** X2. The length prefix of a nonzero [uint64] has between one and ten bytes;
    every byte but the last has the continuation bit set, and the last is
    a nonzero byte without it. *)
Theorem UintToVarLenBytes_shape (l : Z) :
  0 < l < 2 ^ 64 →
  ∃ bs last,
    common.UintToVarLenBytes l = Ok (bs ++ [last]) ∧
    (length bs ≤ 9)%nat ∧
    Forall (λ b, 128 ≤ Z_of_byte b) bs ∧
    1 ≤ Z_of_byte last < 128.
Proof.
  intros Hl. rewrite UintToVarLenBytes_nonzero by done. unfold minimal_varint.
  destruct Hl as [Hpos Hlt].
  pose proof (log2_groups l Hpos) as [Hlo Hhi].
  assert (Hq : 0 ≤ Z.log2 l / 7) by (apply Z.div_pos; [apply Z.log2_nonneg|lia]).
  assert (Hn : Z.log2 l / 7 < 10).
  { assert (Z.log2 l < 64) by (apply Z.log2_lt_pow2; lia).
    apply Z.div_lt_upper_bound; lia. }
  destruct (base128_shape (Z.to_nat (Z.log2 l / 7)) l) as (bs & -> & Hlen & Hall).
  rewrite Z2Nat.id by done.
  exists bs, (byte_of_Z (l / 128 ^ (Z.log2 l / 7))).
  split; [done|]. split; [lia|]. split; [done|].
  assert (Hd : 1 ≤ l / 128 ^ (Z.log2 l / 7) < 128).
  { split.
    - apply Z.div_le_lower_bound; [apply Z.pow_pos_nonneg|]; lia.
    - apply Z.div_lt_upper_bound; [apply Z.pow_pos_nonneg; lia|].
      rewrite Z.pow_add_r, Z.pow_1_r in Hhi by lia. lia. }
  rewrite Z_of_byte_of_Z, Z.mod_small; lia.
Qed.

Lemma land_127 y : 0 ≤ y < 256 → Z.land y 127 = y mod 128.
Proof. revert y. apply byte_values. intros b. by destruct b. Qed.

Lemma split_low7 x : x = Z.lor (x mod 128) (Z.shiftl (x / 128) 7).
Proof.
  apply Z.bits_inj'. intros k Hk.
  rewrite Z.lor_spec, Z.shiftl_spec by done.
  change 128 with (2 ^ 7). rewrite <- Z.shiftr_div_pow2 by lia.
  destruct (Z.lt_ge_cases k 7) as [Hlt|Hge].
  - rewrite Z.mod_pow2_bits_low by lia.
    rewrite (Z.testbit_neg_r _ (k - 7)) by lia. by rewrite orb_false_r.
  - rewrite Z.mod_pow2_bits_high by lia. rewrite Z.shiftr_spec by lia.
    simpl. f_equal. lia.
Qed.

Lemma uvarint_from_base128 n : ∀ fuel x rest shift acc,
  (n < fuel)%nat → 0 ≤ shift →
  (if n is O then 0 else 128 ^ Z.of_nat n) ≤ x < 128 ^ (Z.of_nat n + 1) →
  types.uvarint_from fuel (base128 n x ++ rest) shift acc
  = Some (uint64 (Z.lor acc (Z.shiftl x shift)), rest).
Proof.
  induction n as [|n IH]; intros [|fuel] x rest shift acc Hfuel Hshift Hx;
    try lia.
  - change (128 ^ (Z.of_nat 0 + 1)) with 128 in Hx.
    cbn [base128 app types.uvarint_from].
    rewrite Z_of_byte_of_Z, Z.mod_small by lia.
    destruct (x <? 128) eqn:Hlt; [done|]. apply Z.ltb_ge in Hlt. lia.
  - assert (Hp : 0 < 128 ^ Z.of_nat n) by (apply Z.pow_pos_nonneg; lia).
    assert (E1 : 128 ^ Z.of_nat (S n) = 128 * 128 ^ Z.of_nat n)
      by (rewrite Nat2Z.inj_succ, Z.pow_succ_r; lia).
    assert (E2 : 128 ^ (Z.of_nat (S n) + 1) = 128 * (128 * 128 ^ Z.of_nat n)).
    { rewrite Z.pow_add_r, Z.pow_1_r, E1 by lia. lia. }
    assert (E3 : 128 ^ (Z.of_nat n + 1) = 128 * 128 ^ Z.of_nat n)
      by (rewrite Z.pow_add_r, Z.pow_1_r by lia; lia).
    rewrite E1, E2 in Hx.
    pose proof (Z.mod_pos_bound x 128 ltac:(lia)) as Hm.
    cbn [base128 app types.uvarint_from].
    rewrite Z_of_byte_of_Z, (Z.mod_small (128 + x mod 128)) by lia.
    destruct (128 + x mod 128 <? 128) eqn:Hlt; [apply Z.ltb_lt in Hlt; lia|].
    rewrite land_127 by lia.
    replace ((128 + x mod 128) mod 128) with (x mod 128)
      by (rewrite <- Z.add_mod_idemp_r, Z.mod_mod, Z.add_mod_idemp_r by lia;
          rewrite Z.add_comm; change 128 with (1 * 128) at 2;
          by rewrite Z.mod_add by lia).
    rewrite (IH fuel (x / 128)); [|lia|lia|].
    + do 3 f_equal. rewrite <- Z.lor_assoc. f_equal.
      rewrite (Z.add_comm shift 7), <- Z.shiftl_shiftl, <- Z.shiftl_lor by lia.
      by rewrite <- split_low7.
    + rewrite E3. split.
      * assert (128 ^ Z.of_nat n ≤ x / 128)
          by (apply Z.div_le_lower_bound; lia).
        destruct n; [lia|done].
      * apply Z.div_lt_upper_bound; lia.
Qed.

Lemma parseUvarint_minimal_varint l rest :
  0 < l < 2 ^ 64 → types.parseUvarint (minimal_varint l ++ rest) = (l, false, rest).
Proof.
  intros [Hpos Hlt].
  pose proof (log2_groups l Hpos) as [Hlo Hhi].
  assert (Hq : 0 ≤ Z.log2 l / 7) by (apply Z.div_pos; [apply Z.log2_nonneg|lia]).
  assert (Hn : Z.log2 l / 7 < 10).
  { assert (Z.log2 l < 64) by (apply Z.log2_lt_pow2; lia).
    apply Z.div_lt_upper_bound; lia. }
  unfold types.parseUvarint, minimal_varint, common.MaxVarintLen64.
  rewrite uvarint_from_base128.
  - rewrite Z.shiftl_0_r, Z.lor_0_l. unfold uint64. by rewrite Z.mod_small by lia.
  - lia.
  - lia.
  - rewrite Z2Nat.id by done. split; [|done].
    destruct (Z.to_nat (Z.log2 l / 7)); [lia|done].
Qed.

(** X3. What [UintToVarLenBytes] writes for a nonzero [uint64], [parseUvarint]
    (the base-128 reader of section 4.1) reads back: the value, no error,
    and the cursor on the first byte after the prefix.  Two different
    values therefore never share a prefix encoding. *)
Theorem UintToVarLenBytes_parseUvarint (l : Z) (rest : list byte) :
  0 < l < 2 ^ 64 →
  ∃ b, common.UintToVarLenBytes l = Ok b ∧
       types.parseUvarint (b ++ rest) = (l, false, rest).
Proof.
  intros Hl. exists (minimal_varint l).
  split; [by apply UintToVarLenBytes_nonzero|by apply parseUvarint_minimal_varint].
Qed.

(** ** NewMessage: the account list *)

Section accounts.

Import types.

Lemma tiers_Permutation (c : AccountMeta → bool) l :
  filter (λ a, c a && in_tier true true a) l ++
  filter (λ a, c a && in_tier true false a) l ++
  filter (λ a, c a && in_tier false true a) l ++
  filter (λ a, c a && in_tier false false a) l ≡ₚ filter c l.
Proof.
  unfold in_tier. induction l as [|a l IH]; [done|]. rewrite !filter_cons.
  destruct (c a), (IsSigner a), (IsWritable a); simpl; try done.
  - by rewrite IH.
  - rewrite <- Permutation_middle. by rewrite IH.
  - rewrite (app_assoc _ _ (a :: _)), <- Permutation_middle, <- app_assoc.
    by rewrite IH.
  - rewrite (app_assoc _ _ (a :: _)), (app_assoc _ _ (a :: _)),
      <- Permutation_middle, <- !app_assoc.
    by rewrite IH.
Qed.

(** The keys of the merged map, as the entries carry them. *)
Lemma range_keys ro instructions :
  PubKey <$> range ro (mergeAccounts instructions)
  ≡ₚ (map_to_list (mergeAccounts instructions)).*1.
Proof.
  unfold range. rewrite (range_perm ro), <- list_fmap_compose.
  assert (E : (PubKey ∘ snd) <$> map_to_list (mergeAccounts instructions)
              = (map_to_list (mergeAccounts instructions)).*1).
  { apply Forall_fmap_ext, Forall_forall.
    intros [k a] Hka%elem_of_map_to_list. simpl.
    by apply mergeAccounts_key in Hka. }
  by rewrite E.
Qed.

(** The account list: the fee payer, if one is supplied, and the keys of
    the classified entries, in some order. *)
Lemma publicKeys_Permutation ro feePayer instructions :
  publicKeys (orderAccounts ro feePayer (mergeAccounts instructions)) ≡ₚ
  (if bool_decide (feePayer ≠ ZeroPublicKey) then [feePayer] else []) ++
  (PubKey <$> filter (classified feePayer)
                     (range ro (mergeAccounts instructions))).
Proof.
  rewrite orderAccounts_tiers. unfold publicKeys.
  cbn [writableSignedAccount readOnlySignedAccount writableUnsignedAccount
       readOnlyUnsignedAccount].
  rewrite <- (tiers_Permutation (classified feePayer)).
  by rewrite !fmap_app, <- !app_assoc.
Qed.

Lemma NoDup_publicKeys ro feePayer instructions :
  NoDup (publicKeys (orderAccounts ro feePayer (mergeAccounts instructions))).
Proof.
  rewrite publicKeys_Permutation.
  assert (Hnd : NoDup (PubKey <$> filter (classified feePayer)
                         (range ro (mergeAccounts instructions)))).
  { eapply sublist_NoDup; [|apply fmap_sublist, sublist_filter].
    rewrite range_keys. apply NoDup_fst_map_to_list. }
  case_bool_decide as Hfee; [|done].
  apply NoDup_cons. split; [|done].
  intros (a & Hk & [Hc _]%list_elem_of_filter)%list_elem_of_fmap.
  unfold classified in Hc. apply orb_prop_elim in Hc as [Hc|Hc];
    apply bool_decide_unpack in Hc; done.
Qed.

Lemma elem_of_publicKeys ro feePayer instructions k :
  k ∈ publicKeys (orderAccounts ro feePayer (mergeAccounts instructions)) ↔
  mentioned k instructions = true ∨ (feePayer ≠ ZeroPublicKey ∧ k = feePayer).
Proof.
  split.
  - rewrite publicKeys_Permutation, elem_of_app. intros [Hk|Hk].
    + case_bool_decide; [|by apply elem_of_nil in Hk].
      apply list_elem_of_singleton in Hk. by right.
    + apply list_elem_of_fmap in Hk as (a & -> & [_ Ha]%list_elem_of_filter).
      apply elem_of_range in Ha as [k Hk]. left.
      pose proof (mergeAccounts_key _ _ _ Hk) as ->.
      rewrite mergeAccounts_lookup in Hk.
      by destruct (mentioned k instructions).
  - intros [Hm|[Hfee ->]].
    + by apply mentioned_in_publicKeys.
    + rewrite publicKeys_Permutation, bool_decide_eq_true_2 by done.
      apply list_elem_of_here.
Qed.

End accounts.

(** X4. The account list of a compiled message holds no identity twice. *)
Theorem NewMessage_accounts_NoDup (ro : RangeOrder) (feePayer : PublicKey)
    (instructions : list Instruction.t) (recentBlockHash : string) :
  NoDup (Message.Accounts
           (types.NewMessage ro feePayer instructions recentBlockHash)).
Proof. unfold types.NewMessage. simpl. apply NoDup_publicKeys. Qed.

(** X5. The account list of a compiled message holds exactly the identities
    the instructions name, as program or as account, and a supplied fee
    payer: nothing is left out and nothing else gets in. *)
Theorem NewMessage_accounts_are_the_named (ro : RangeOrder)
    (feePayer : PublicKey) (instructions : list Instruction.t)
    (recentBlockHash : string) (k : PublicKey) :
  k ∈ Message.Accounts
        (types.NewMessage ro feePayer instructions recentBlockHash) ↔
  mentioned k instructions = true ∨ (feePayer ≠ ZeroPublicKey ∧ k = feePayer).
Proof. unfold types.NewMessage. simpl. apply elem_of_publicKeys. Qed.

(** X6. Compiling keeps the instructions in number and order; each compiled
    index is the position of the identity it stands for in the account
    list, and the payload is carried over. *)
Theorem NewMessage_indices_resolve (ro : RangeOrder) (feePayer : PublicKey)
    (instructions : list Instruction.t) (recentBlockHash : string) :
  Forall2 (λ i ci,
    Message.Accounts
      (types.NewMessage ro feePayer instructions recentBlockHash)
      !! Z.to_nat (CompiledInstruction.ProgramIDIndex ci)
      = Some (Instruction.ProgramID i) ∧
    Forall2 (λ a idx,
      Message.Accounts
        (types.NewMessage ro feePayer instructions recentBlockHash)
        !! Z.to_nat idx = Some (PubKey a))
      (Instruction.Accounts i) (CompiledInstruction.Accounts ci) ∧
    CompiledInstruction.Data ci = Instruction.Data i)
    instructions
    (Message.Instructions
       (types.NewMessage ro feePayer instructions recentBlockHash)).
Proof.
  pose proof (NewMessage_resolves ro feePayer instructions recentBlockHash) as H.
  cbv zeta in H. eapply Forall2_impl; [exact H|]. cbv beta.
  intros i ci (Hp & _ & Ha & Hd). split; [done|]. split; [|done].
  eapply Forall2_impl; [exact Ha|]. cbv beta. by intros a idx [? _].
Qed.

Section layout.

Import types.

Lemma tier_lookup ro feePayer instructions s w (j : nat) k :
  (PubKey <$> filter (λ a, classified feePayer a && in_tier s w a)
                     (range ro (mergeAccounts instructions))) !! j = Some k →
  ∃ a, mergeAccounts instructions !! k = Some a ∧
       IsSigner a = s ∧ IsWritable a = w.
Proof.
  intros Hk%list_elem_of_lookup_2.
  apply list_elem_of_fmap in Hk as (a & -> & Ha).
  apply list_elem_of_filter in Ha as [Hflags Ha].
  apply elem_of_range in Ha as [k Hk].
  pose proof (mergeAccounts_key _ _ _ Hk) as <-.
  exists a. split; [done|].
  apply andb_prop_elim in Hflags as [_ Hflags]. unfold in_tier in Hflags.
  by destruct (IsSigner a), (IsWritable a), s, w.
Qed.

End layout.

(** X7. The header tells the privileges of every account from its position,
    while the list has at most 255 entries: apart from a supplied fee
    payer at position 0, the account at position [i] is merged as a signer
    exactly when [i] is below [NumRequireSignatures], and as writable
    exactly when [i] is below [NumRequireSignatures -
    NumReadonlySignedAccounts], or at or after [NumRequireSignatures] and
    before the last [NumReadonlyUnsignedAccounts] positions. *)
Theorem position_gives_privileges (ro : RangeOrder) (feePayer : PublicKey)
    (instructions : list Instruction.t) (recentBlockHash : string)
    (i : nat) (k : PublicKey) :
  let m := types.NewMessage ro feePayer instructions recentBlockHash in
  let h := Message.Header m in
  len (Message.Accounts m) < 256 →
  Message.Accounts m !! i = Some k →
  (feePayer ≠ ZeroPublicKey ∧ i = 0%nat ∧ k = feePayer) ∨
  ∃ a, types.mergeAccounts instructions !! k = Some a ∧
       IsSigner a = bool_decide (Z.of_nat i < NumRequireSignatures h) ∧
       IsWritable a =
         bool_decide
           (Z.of_nat i < NumRequireSignatures h - NumReadonlySignedAccounts h ∨
            NumRequireSignatures h ≤ Z.of_nat i
              < len (Message.Accounts m) - NumReadonlyUnsignedAccounts h).
Proof.
  intros m h Hlen Hi.
  pose proof (NewMessage_counts ro feePayer instructions recentBlockHash) as H.
  cbv zeta in H. fold m in H. destruct H as (Hh & Hl & Hs).
  rewrite Hs in Hh. unfold h. rewrite Hh. clear Hh Hs.
  cbn [NumRequireSignatures NumReadonlySignedAccounts NumReadonlyUnsignedAccounts].
  revert Hlen Hi. rewrite Hl. clear Hl.
  unfold m, types.NewMessage, types.publicKeys. rewrite orderAccounts_tiers.
  cbn [Message.Accounts types.writableSignedAccount types.readOnlySignedAccount
       types.writableUnsignedAccount types.readOnlyUnsignedAccount].
  rewrite <- !filter_range_length with (ro := ro).
  set (TT := filter (λ a, classified feePayer a && in_tier true true a) _).
  set (TF := filter (λ a, classified feePayer a && in_tier true false a) _).
  set (FT := filter (λ a, classified feePayer a && in_tier false true a) _).
  set (FF := filter (λ a, classified feePayer a && in_tier false false a) _).
  set (fee := if bool_decide (feePayer ≠ ZeroPublicKey) then 1 else 0).
  assert (Hfront : length (if bool_decide (feePayer ≠ ZeroPublicKey)
                           then [feePayer] else []) = Z.to_nat fee)
    by (unfold fee; by case_bool_decide).
  assert (Hfee : 0 ≤ fee ≤ 1) by (unfold fee; case_bool_decide; lia).
  unfold len. intros Hlen.
  unfold uint8. rewrite !Z.mod_small by lia.
  rewrite !lookup_app_Some, !length_app, !length_fmap, Hfront.
  intros [[Hi|[Hge Hi]]|[Hge [Hi|[Hge' [Hi|[Hge'' Hi]]]]]].
  - left. unfold fee in *. case_bool_decide; [|done].
    destruct i as [|i]; [|done]. by injection Hi as ->.
  - right. apply lookup_lt_Some in Hi as Hlt. rewrite length_fmap in Hlt.
    apply tier_lookup in Hi as (a & Ha & Hs & Hw). exists a. split; [done|].
    rewrite Hs, Hw.
    rewrite !bool_decide_eq_true_2 by lia. done.
  - right. apply lookup_lt_Some in Hi as Hlt. rewrite length_fmap in Hlt.
    apply tier_lookup in Hi as (a & Ha & Hs & Hw). exists a. split; [done|].
    rewrite Hs, Hw.
    rewrite bool_decide_eq_true_2 by lia. rewrite bool_decide_eq_false_2 by lia.
    done.
  - right. apply lookup_lt_Some in Hi as Hlt. rewrite length_fmap in Hlt.
    apply tier_lookup in Hi as (a & Ha & Hs & Hw). exists a. split; [done|].
    rewrite Hs, Hw.
    rewrite bool_decide_eq_false_2 by lia. rewrite bool_decide_eq_true_2 by lia.
    done.
  - right. apply lookup_lt_Some in Hi as Hlt. rewrite length_fmap in Hlt.
    apply tier_lookup in Hi as (a & Ha & Hs & Hw). exists a. split; [done|].
    rewrite Hs, Hw.
    rewrite !bool_decide_eq_false_2 by lia. done.
Qed.

(** X8. Two compilations of one input differ at most in the positions of the
    accounts: under any two iteration orders of the account map the header
    is the same, the account lists hold the same identities, and the block
    hash text and the payloads are carried over alike. *)
Theorem iteration_order_moves_accounts_only (ro1 ro2 : RangeOrder)
    (feePayer : PublicKey) (instructions : list Instruction.t)
    (recentBlockHash : string) :
  Message.Header (types.NewMessage ro1 feePayer instructions recentBlockHash)
    = Message.Header (types.NewMessage ro2 feePayer instructions recentBlockHash) ∧
  Message.Accounts (types.NewMessage ro1 feePayer instructions recentBlockHash)
    ≡ₚ Message.Accounts
         (types.NewMessage ro2 feePayer instructions recentBlockHash) ∧
  CompiledInstruction.Data <$>
    Message.Instructions
      (types.NewMessage ro1 feePayer instructions recentBlockHash)
    = CompiledInstruction.Data <$>
        Message.Instructions
          (types.NewMessage ro2 feePayer instructions recentBlockHash).
Proof.
  split; [apply NewMessage_header_any_order|].
  split; [apply NewMessage_accounts_any_order|].
  unfold types.NewMessage. cbn [Message.Instructions].
  rewrite <- !list_fmap_compose. done.
Qed.

(** X9. When no tier holds more than one of the classified identities, the
    compiled message does not depend on the iteration order of the account
    map at all. *)
Theorem NewMessage_same_under_every_order (ro1 ro2 : RangeOrder)
    (feePayer : PublicKey) (instructions : list Instruction.t)
    (recentBlockHash : string) :
  (∀ s w, identities_where (λ a, classified feePayer a && in_tier s w a)
                           (types.mergeAccounts instructions) ≤ 1) →
  types.NewMessage ro1 feePayer instructions recentBlockHash
  = types.NewMessage ro2 feePayer instructions recentBlockHash.
Proof.
  intros Hsmall.
  assert (Heq : ∀ s w,
    filter (λ a, classified feePayer a && in_tier s w a)
           (range ro1 (types.mergeAccounts instructions))
    = filter (λ a, classified feePayer a && in_tier s w a)
             (range ro2 (types.mergeAccounts instructions))).
  { intros s w. specialize (Hsmall s w).
    unfold identities_where, len in Hsmall. unfold range.
    rewrite (filter_visit ro1 _ _ _ eq_refl) by lia.
    by rewrite (filter_visit ro2 _ _ _ eq_refl) by lia. }
  unfold types.NewMessage. rewrite !orderAccounts_tiers. cbv zeta.
  by rewrite !Heq.
Qed.

(** ** Serialize: every outcome *)

Section serialize_outcome.

Import types.
Context `{Base58}.

Lemma serializeInstruction_outcome b ci :
  serializeInstruction b ci = Panic IndexOutOfRange ∨
  ∃ b', serializeInstruction b ci = Ok b'.
Proof.
  unfold serializeInstruction. rewrite UintToVarLenBytes_uint64.
  case_bool_decide; [by left|right]. by eexists.
Qed.

Lemma serializeInstructions_empty_index_list l : ∀ b,
  Exists (λ ci, CompiledInstruction.Accounts ci = []) l →
  serializeInstructions b l = Panic IndexOutOfRange.
Proof.
  induction l as [|ci l IH]; intros b Hex; [by apply Exists_nil in Hex|].
  cbn [serializeInstructions]. apply Exists_cons in Hex as [Hci|Hl].
  - unfold serializeInstruction. by rewrite Hci.
  - destruct (serializeInstruction_outcome b ci) as [->|[b' ->]]; [done|].
    unfold mbind, outcome_bind. by apply IH.
Qed.

End serialize_outcome.

(** X10. [Serialize] on slices of ordinary length: it panics on an empty
    account list; otherwise it returns the error of the text codec when
    the block hash does not decode; otherwise it panics when the
    instruction list, or the index list of one of the instructions, is
    empty; and in every other case it returns the wire layout.  No other
    error and no other panic can come out of it. *)
Theorem Serialize_outcome `{Base58} (m : Message.t) :
  len (Message.Accounts m) < 2 ^ 64 →
  len (Message.Instructions m) < 2 ^ 64 →
  Forall (λ ci, len (CompiledInstruction.Accounts ci) < 2 ^ 64)
         (Message.Instructions m) →
  types.Serialize m =
    if bool_decide (len (Message.Accounts m) = 0) then Panic IndexOutOfRange
    else match base58_Decode (Message.RecentBlockHash m) with
         | None => Err Base58DecodeError
         | Some blockHash =>
             if bool_decide
                  (0 < len (Message.Instructions m) ∧
                   Forall (λ ci, 0 < len (CompiledInstruction.Accounts ci))
                          (Message.Instructions m))
             then Ok (wire m blockHash)
             else Panic IndexOutOfRange
         end.
Proof.
  intros Ha Hi Hci.
  assert (Hnil : ∀ {A} (l : list A), len l = 0 → l = []).
  { intros A [|x l]; [done|]. unfold len. simpl. lia. }
  case_bool_decide as Hacc.
  { by apply Serialize_no_accounts, Hnil. }
  assert (Hpa : prefixable (Message.Accounts m)).
  { unfold prefixable, len in *. lia. }
  destruct (base58_Decode (Message.RecentBlockHash m)) as [blockHash|] eqn:Hh;
    [|by apply Serialize_undecodable].
  case_bool_decide as Hok.
  - destruct Hok as [Hpos Hall]. apply Serialize_wire; [done|split; lia| |done].
    apply Forall_forall. intros ci Hin.
    rewrite Forall_forall in Hci, Hall. split; [by apply Hall|by apply Hci].
  - destruct (decide (len (Message.Instructions m) = 0)) as [Hz|Hnz].
    { eapply Serialize_no_instructions; [by apply Hnil|done]. }
    assert (Hex : Exists (λ ci, CompiledInstruction.Accounts ci = [])
                         (Message.Instructions m)).
    { assert (Hnf : ¬ Forall (λ ci, 0 < len (CompiledInstruction.Accounts ci))
                               (Message.Instructions m)).
      { intros Hall. apply Hok. split; [unfold len in *; lia|done]. }
      apply not_Forall_Exists in Hnf; [|apply _].
      eapply Exists_impl; [exact Hnf|]. intros ci Hlen. simpl in Hlen.
      apply Hnil. unfold len in *. lia. }
    unfold types.Serialize.
    rewrite (prefix_of_prefixable _ Hpa). unfold mbind at 1, outcome_bind at 1.
    rewrite Hh.
    rewrite (prefix_of_prefixable (Message.Instructions m))
      by (unfold prefixable, len in *; lia).
    unfold mbind, outcome_bind.
    by apply serializeInstructions_empty_index_list.
Qed.

(** X11. Compiling and serializing compose whenever every instruction names at
    least one account: a non-empty sequence of such instructions, with a
    block hash text that decodes, yields a message that [Serialize] turns
    into the wire layout (the slices being of ordinary length). *)
Theorem compiled_message_serializes `{Base58} (ro : RangeOrder)
    (feePayer : PublicKey) (instructions : list Instruction.t)
    (recentBlockHash : string) (blockHash : list byte) :
  instructions ≠ [] →
  Forall (λ i, Instruction.Accounts i ≠ []) instructions →
  base58_Decode recentBlockHash = Some blockHash →
  len (Message.Accounts
         (types.NewMessage ro feePayer instructions recentBlockHash)) < 2 ^ 64 →
  len instructions < 2 ^ 64 →
  Forall (λ i, len (Instruction.Accounts i) < 2 ^ 64) instructions →
  types.Serialize (types.NewMessage ro feePayer instructions recentBlockHash)
  = Ok (wire (types.NewMessage ro feePayer instructions recentBlockHash)
             blockHash).
Proof.
  intros Hne Hacc Hh Hla Hli Hlia. apply Serialize_wire; [| | |done].
  - split; [|done]. destruct instructions as [|i l]; [done|].
    assert (Hin : Instruction.ProgramID i ∈
              Message.Accounts
                (types.NewMessage ro feePayer (i :: l) recentBlockHash)).
    { unfold types.NewMessage. cbn [Message.Accounts].
      apply elem_of_publicKeys. left.
      unfold mentioned. simpl. by rewrite bool_decide_eq_true_2. }
    destruct (Message.Accounts _); [by apply elem_of_nil in Hin|].
    unfold len. simpl. lia.
  - unfold types.NewMessage. cbn [Message.Instructions].
    unfold prefixable, len in *. rewrite length_map.
    destruct instructions; [done|]. simpl in *. lia.
  - unfold types.NewMessage. cbn [Message.Instructions].
    apply Forall_fmap, Forall_forall. intros i Hin. simpl.
    rewrite Forall_forall in Hacc, Hlia.
    specialize (Hacc i Hin). specialize (Hlia i Hin).
    unfold prefixable, len in *. rewrite length_map.
    destruct (Instruction.Accounts i); [done|]. simpl in *. lia.
Qed.

(** ** MessageDeserialize: what a successful decode implies *)

Ltac zcmp :=
  repeat match goal with
  | H : (_ <? _) = true |- _ => apply Z.ltb_lt in H
  | H : (_ <? _) = false |- _ => apply Z.ltb_ge in H
  | H : (_ <=? _) = true |- _ => apply Z.leb_le in H
  | H : (_ <=? _) = false |- _ => apply Z.leb_gt in H
  end.

Section decode.

Import types.
Context `{Base58}.

(** X12. The decoder does not look at what follows the last instruction: the
    wire layout of a message below 128 everywhere decodes to that message
    whatever bytes are appended to it. *)
Theorem MessageDeserialize_ignores_trailing_bytes (m : Message.t)
    (blockHash extra : list byte) :
  below_128 m →
  length blockHash = 32%nat →
  base58_Encode blockHash = Message.RecentBlockHash m →
  MessageDeserialize (wire m blockHash ++ extra) = Ok m.
Proof.
  destruct m as [[h1 h2 h3] keys hash instructions].
  unfold below_128.
  cbn [Message.Header Message.Accounts Message.RecentBlockHash
       Message.Instructions NumRequireSignatures NumReadonlySignedAccounts
       NumReadonlyUnsignedAccounts].
  intros (H1 & H2 & H3 & Hk & Hi & Hci) Hlen Henc.
  unfold MessageDeserialize, wire.
  cbn [Message.Header Message.Accounts Message.RecentBlockHash
       Message.Instructions NumRequireSignatures NumReadonlySignedAccounts
       NumReadonlyUnsignedAccounts].
  rewrite <- !app_assoc. cbn [app].
  rewrite parseHeaderField_small by done. unfold mbind at 1, outcome_bind at 1.
  rewrite parseHeaderField_small by done. unfold mbind at 1, outcome_bind at 1.
  rewrite parseHeaderField_small by done. unfold mbind at 1, outcome_bind at 1.
  rewrite !minimal_varint_small by done. cbn [app].
  rewrite parseUvarint_small by lia.
  rewrite (int64_small (len keys)) by lia.
  rewrite (int64_small (len keys * 32)) by lia.
  destruct (len _ <? len keys * 32) eqn:Hlt.
  { unfold len at 1 in Hlt. rewrite length_app in Hlt.
    pose proof (length_concat_bytes keys) as Hc. unfold len at 1 in Hc.
    zcmp. lia. }
  unfold make, sizeof_PublicKey, sizeof_CompiledInstruction, maxAlloc.
  destruct ((len keys <? 2 ^ 63) && (32 * len keys <=? 2 ^ 48)) eqn:Hmk;
    [|apply andb_false_iff in Hmk as [?|?]; zcmp; lia].
  unfold mbind at 1, outcome_bind at 1.
  replace (Z.to_nat (len keys)) with (length keys) by (unfold len; lia).
  rewrite parseAccounts_wire.
  unfold mbind at 1, outcome_bind at 1. cbn [app].
  destruct (len _ <? 32) eqn:Hlt32.
  { unfold len in Hlt32. rewrite length_app in Hlt32. zcmp. lia. }
  rewrite <- Hlen, take_app_length, drop_app_length, Henc. cbn [app].
  rewrite parseUvarint_small by lia.
  destruct ((len instructions <? 2 ^ 63) && (56 * len instructions <=? 2 ^ 48))
    eqn:Hmk'; [|apply andb_false_iff in Hmk' as [?|?]; zcmp; lia].
  unfold mbind at 1, outcome_bind at 1.
  rewrite (int64_small (len instructions)) by lia.
  replace (Z.to_nat (len instructions)) with (length instructions)
    by (unfold len; lia).
  rewrite (parseInstructions_wire _ _ _ _ Hci).
  done.
Qed.

Lemma uvarint_from_consumes fuel : ∀ buf shift acc v rest,
  uvarint_from fuel buf shift acc = Some (v, rest) →
  (length rest < length buf)%nat.
Proof.
  induction fuel as [|fuel IH]; intros [|b buf] shift acc v rest; simpl;
    try done.
  destruct (Z_of_byte b <? 128).
  - intros [= _ ->]. lia.
  - intros Hr%IH. lia.
Qed.

(** The cursor never moves backwards. *)
Lemma parseUvarint_rest b v e rest :
  parseUvarint b = (v, e, rest) → (length rest ≤ length b)%nat.
Proof.
  unfold parseUvarint.
  destruct (uvarint_from _ b 0 0) as [[v' rest']|] eqn:Hu.
  - intros [= _ _ <-]. apply uvarint_from_consumes in Hu. lia.
  - intros [= _ _ <-]. lia.
Qed.

Lemma parseHeaderField_Ok i b h rest :
  parseHeaderField i b = Ok (h, rest) →
  0 ≤ h < 256 ∧ (length rest ≤ length b)%nat.
Proof.
  unfold parseHeaderField.
  destruct (parseUvarint b) as [[t e] d] eqn:Hp.
  destruct (255 <? t); [done|]. intros [= <- <-]. split.
  - apply Z.mod_pos_bound. lia.
  - by eapply parseUvarint_rest.
Qed.

Lemma parseAccounts_Ok n : ∀ accounts b accounts' rest,
  parseAccounts n accounts b = Ok (accounts', rest) →
  length accounts' = (length accounts + n)%nat ∧
  length b = (32 * n + length rest)%nat.
Proof.
  induction n as [|n IH]; intros accounts b accounts' rest; simpl.
  - intros [= <- <-]. lia.
  - destruct (len b <? 32) eqn:Hlt; [done|]. intros Hr%IH.
    rewrite length_app, length_drop in Hr. simpl in Hr.
    unfold len in Hlt. zcmp. lia.
Qed.

(** The steps a successful decode has gone through. *)
Lemma MessageDeserialize_Ok b m :
  MessageDeserialize b = Ok m →
  ∃ h1 d1 h2 d2 h3 d3 count e d4 d5 icount d6 instructions d7,
    parseHeaderField 0 b = Ok (h1, d1) ∧
    parseHeaderField 1 d1 = Ok (h2, d2) ∧
    parseHeaderField 2 d2 = Ok (h3, d3) ∧
    parseUvarint d3 = (count, e, d4) ∧
    int64 (int64 count * 32) ≤ len d4 ∧
    make sizeof_PublicKey count = Ok () ∧
    parseAccounts (Z.to_nat (int64 count)) [] d4 = Ok (Message.Accounts m, d5) ∧
    32 ≤ len d5 ∧
    parseUvarint (drop 32 d5) = (icount, false, d6) ∧
    make sizeof_CompiledInstruction icount = Ok () ∧
    parseInstructions 0 (Z.to_nat (int64 icount)) [] d6 = Ok (instructions, d7) ∧
    m = {| Message.Header :=
             {| NumRequireSignatures := h1;
                NumReadonlySignedAccounts := h2;
                NumReadonlyUnsignedAccounts := h3 |};
           Message.Accounts := Message.Accounts m;
           Message.RecentBlockHash := base58_Encode (take 32 d5);
           Message.Instructions := instructions |}.
Proof.
  unfold MessageDeserialize.
  destruct (parseHeaderField 0 b) as [[h1 d1]|?|?] eqn:E1; [|done..].
  unfold mbind at 1, outcome_bind at 1.
  destruct (parseHeaderField 1 d1) as [[h2 d2]|?|?] eqn:E2; [|done..].
  unfold mbind at 1, outcome_bind at 1.
  destruct (parseHeaderField 2 d2) as [[h3 d3]|?|?] eqn:E3; [|done..].
  unfold mbind at 1, outcome_bind at 1.
  destruct (parseUvarint d3) as [[count e] d4] eqn:E4.
  destruct (len d4 <? int64 (int64 count * 32)) eqn:Hlt; [done|].
  destruct (make sizeof_PublicKey count) as [[]|?|?] eqn:Hmk; [|done..].
  unfold mbind at 1, outcome_bind at 1.
  destruct (parseAccounts _ [] d4) as [[accounts d5]|?|?] eqn:E5; [|done..].
  unfold mbind at 1, outcome_bind at 1.
  destruct (len d5 <? 32) eqn:Hlt32; [done|].
  destruct (parseUvarint (drop 32 d5)) as [[icount [|]] d6] eqn:E6; [done|].
  destruct (make sizeof_CompiledInstruction icount) as [[]|?|?] eqn:Hmk';
    [|done..].
  unfold mbind at 1, outcome_bind at 1.
  destruct (parseInstructions 0 _ [] d6) as [[instructions d7]|?|?] eqn:E7;
    [|done..].
  unfold mbind, outcome_bind. intros [= <-]. cbn [Message.Accounts].
  zcmp. by exists h1, d1, h2, d2, h3, d3, count, e, d4, d5, icount, d6,
    instructions, d7.
Qed.

(** X13. A message the decoder returns has header fields that fit a byte, and
    the input held 32 bytes for each of its accounts and 32 for the block
    hash: no account and no hash byte is made up past the end of the
    input. *)
Theorem MessageDeserialize_Ok_bounds (b : list byte) (m : Message.t) :
  MessageDeserialize b = Ok m →
  0 ≤ NumRequireSignatures (Message.Header m) < 256 ∧
  0 ≤ NumReadonlySignedAccounts (Message.Header m) < 256 ∧
  0 ≤ NumReadonlyUnsignedAccounts (Message.Header m) < 256 ∧
  32 * len (Message.Accounts m) + 32 ≤ len b.
Proof.
  intros (h1 & d1 & h2 & d2 & h3 & d3 & count & e & d4 & d5 & icount & d6 &
          instructions & d7 & E1 & E2 & E3 & E4 & _ & _ & E5 & H32 & _ & _ & _ &
          ->)%MessageDeserialize_Ok.
  cbn [Message.Header Message.Accounts NumRequireSignatures
       NumReadonlySignedAccounts NumReadonlyUnsignedAccounts].
  apply parseHeaderField_Ok in E1 as [? ?].
  apply parseHeaderField_Ok in E2 as [? ?].
  apply parseHeaderField_Ok in E3 as [? ?].
  apply parseUvarint_rest in E4.
  apply parseAccounts_Ok in E5 as [Hn Hd]. simpl in Hn.
  repeat (split; [done|]). unfold len in *. lia.
Qed.

Lemma int64_multiple q : int64 (2 ^ 64 * q) = 0.
Proof.
  unfold int64. rewrite Z.add_comm, Z.mul_comm, Z.mod_add by lia. done.
Qed.

Lemma int64_times_32_wraps j : int64 (int64 (j * 2 ^ 59) * 32) = 0.
Proof.
  assert (Hy : ∃ d, int64 (j * 2 ^ 59) = j * 2 ^ 59 - 2 ^ 64 * d).
  { exists ((j * 2 ^ 59 + 2 ^ 63) / 2 ^ 64). unfold int64.
    pose proof (Z.div_mod (j * 2 ^ 59 + 2 ^ 63) (2 ^ 64) ltac:(lia)). lia. }
  destruct Hy as [d ->].
  replace ((j * 2 ^ 59 - 2 ^ 64 * d) * 32) with (2 ^ 64 * (j - 32 * d)) by lia.
  apply int64_multiple.
Qed.

(** X14. The length check on the account list does not stop a huge declared
    count: the product [int(accountCount)*32] wraps around, so after any
    three header bytes an account count of [j * 2^59] passes the check
    whatever bytes follow, and the decoder panics in [make] instead of
    returning an error. *)
Theorem MessageDeserialize_huge_account_count (h1 h2 h3 j : Z)
    (rest : list byte) :
  0 ≤ h1 < 128 → 0 ≤ h2 < 128 → 0 ≤ h3 < 128 → 1 ≤ j < 32 →
  ∃ prefix,
    common.UintToVarLenBytes (j * 2 ^ 59) = Ok prefix ∧
    MessageDeserialize
      ([byte_of_Z h1; byte_of_Z h2; byte_of_Z h3] ++ prefix ++ rest)
    = Panic MakesliceCapOutOfRange.
Proof.
  intros H1 H2 H3 Hj. exists (minimal_varint (j * 2 ^ 59)).
  assert (Hc : 0 < j * 2 ^ 59 < 2 ^ 64) by lia.
  split; [by apply UintToVarLenBytes_nonzero|].
  unfold MessageDeserialize. cbn [app].
  rewrite parseHeaderField_small by done. unfold mbind at 1, outcome_bind at 1.
  rewrite parseHeaderField_small by done. unfold mbind at 1, outcome_bind at 1.
  rewrite parseHeaderField_small by done. unfold mbind at 1, outcome_bind at 1.
  rewrite parseUvarint_minimal_varint by done.
  rewrite int64_times_32_wraps.
  destruct (len rest <? 0) eqn:Hlt; [unfold len in Hlt; zcmp; lia|].
  unfold make, sizeof_PublicKey, maxAlloc.
  destruct ((j * 2 ^ 59 <? 2 ^ 63) && (32 * (j * 2 ^ 59) <=? 2 ^ 48)) eqn:Hmk;
    [|done].
  apply andb_true_iff in Hmk as [_ Hmk]. zcmp. lia.
Qed.

(** An instruction whose payload has lost its last [k] bytes. *)
Lemma parseInstruction_cut i ci (k : nat) :
  0 ≤ CompiledInstruction.ProgramIDIndex ci < 128 →
  0 < len (CompiledInstruction.Accounts ci) < 128 →
  Forall (λ idx, 0 ≤ idx < 128) (CompiledInstruction.Accounts ci) →
  len (CompiledInstruction.Data ci) < 128 →
  (0 < k ≤ length (CompiledInstruction.Data ci))%nat →
  parseInstruction i
    (take (length (wire_instruction ci) - k) (wire_instruction ci))
  = Panic SliceBoundsOutOfRange.
Proof.
  destruct ci as [programID accounts data].
  cbn [CompiledInstruction.ProgramIDIndex CompiledInstruction.Accounts
       CompiledInstruction.Data].
  intros Hp Hn Hidx Hdata Hk. unfold wire_instruction.
  cbn [CompiledInstruction.ProgramIDIndex CompiledInstruction.Accounts
       CompiledInstruction.Data].
  rewrite minimal_varint_small by done.
  rewrite !app_assoc.
  rewrite take_app_ge by (rewrite !length_app; simpl; lia).
  replace (length (((([byte_of_Z programID] ++ [byte_of_Z (len accounts)]) ++
                     (byte_of_Z <$> accounts)) ++ [byte_of_Z (len data)]) ++ data)
           - k - length ((([byte_of_Z programID] ++ [byte_of_Z (len accounts)]) ++
                          (byte_of_Z <$> accounts)) ++ [byte_of_Z (len data)]))%nat
    with (length data - k)%nat by (rewrite !length_app; lia).
  rewrite <- !app_assoc. cbn [app]. unfold parseInstruction.
  rewrite !parseUvarint_small by lia.
  unfold make, sizeof_int, maxAlloc.
  destruct ((len accounts <? 2 ^ 63) && (8 * len accounts <=? 2 ^ 48)) eqn:Hmk;
    [|apply andb_false_iff in Hmk as [?|?]; zcmp; lia].
  unfold mbind at 1, outcome_bind at 1.
  rewrite (int64_small (len accounts)) by lia.
  replace (Z.to_nat (len accounts)) with (length accounts) by (unfold len; lia).
  rewrite (parseAccountIdxs_wire _ _ _ _ _ Hidx).
  unfold mbind, outcome_bind. cbn [app].
  assert (0 ≤ len data) by (unfold len; lia).
  rewrite parseUvarint_small by lia.
  destruct (len (take (length data - k) data) <? len data) eqn:Hlt; [done|].
  unfold len in Hlt. rewrite length_take in Hlt. zcmp. lia.
Qed.

Lemma parseInstructions_cut l : ∀ i instructions ci (k : nat),
  Forall (λ ci,
    0 ≤ CompiledInstruction.ProgramIDIndex ci < 128 ∧
    0 < len (CompiledInstruction.Accounts ci) < 128 ∧
    Forall (λ idx, 0 ≤ idx < 128) (CompiledInstruction.Accounts ci) ∧
    len (CompiledInstruction.Data ci) < 128) (l ++ [ci]) →
  (0 < k ≤ length (CompiledInstruction.Data ci))%nat →
  parseInstructions i (length (l ++ [ci])) instructions
    (concat (wire_instruction <$> l) ++
     take (length (wire_instruction ci) - k) (wire_instruction ci))
  = Panic SliceBoundsOutOfRange.
Proof.
  induction l as [|c l IH]; intros i instructions ci k Hl Hk.
  - apply Forall_singleton in Hl as (Hp & Hn & Hidx & Hdata).
    cbn [app length fmap list_fmap concat parseInstructions].
    by rewrite parseInstruction_cut.
  - cbn [app] in Hl. apply Forall_cons in Hl as [(Hp & Hn & Hidx & Hdata) Hl].
    cbn [app length fmap list_fmap concat parseInstructions].
    rewrite <- app_assoc, parseInstruction_wire by done.
    unfold mbind, outcome_bind. by apply IH.
Qed.

(** X15. The missing bounds check of the payload, in general: cut the wire
    layout of a message below 128 anywhere inside the payload of its last
    instruction, and the decoder panics on a slice out of range instead of
    returning an error. *)
Theorem MessageDeserialize_cut_in_last_payload (m : Message.t)
    (blockHash : list byte) (l : list CompiledInstruction.t)
    (ci : CompiledInstruction.t) (k : nat) :
  below_128 m →
  length blockHash = 32%nat →
  Message.Instructions m = l ++ [ci] →
  (0 < k ≤ length (CompiledInstruction.Data ci))%nat →
  MessageDeserialize
    (take (length (wire m blockHash) - k) (wire m blockHash))
  = Panic SliceBoundsOutOfRange.
Proof.
  destruct m as [[h1 h2 h3] keys hash instructions].
  unfold below_128.
  cbn [Message.Header Message.Accounts Message.RecentBlockHash
       Message.Instructions NumRequireSignatures NumReadonlySignedAccounts
       NumReadonlyUnsignedAccounts].
  intros (H1 & H2 & H3 & Hk & Hi & Hci) Hlen -> Hcut.
  assert (Hw : wire_instruction ci ≠ [] ∧
               (k ≤ length (wire_instruction ci))%nat).
  { unfold wire_instruction. rewrite !length_app. simpl. split; [done|lia]. }
  destruct Hw as [_ Hkw].
  unfold wire.
  cbn [Message.Header Message.Accounts Message.RecentBlockHash
       Message.Instructions NumRequireSignatures NumReadonlySignedAccounts
       NumReadonlyUnsignedAccounts].
  rewrite fmap_app, concat_app. cbn [fmap list_fmap concat].
  rewrite app_nil_r, !app_assoc.
  rewrite take_app_ge by (rewrite !length_app; lia).
  match goal with
  | |- context [take (length (?p ++ ?w) - k - length ?p) ?w] =>
      replace (length (p ++ w) - k - length p)%nat with (length w - k)%nat
        by (rewrite (length_app p w); lia)
  end.
  rewrite <- !app_assoc. cbn [app]. unfold MessageDeserialize.
  rewrite parseHeaderField_small by done. unfold mbind at 1, outcome_bind at 1.
  rewrite parseHeaderField_small by done. unfold mbind at 1, outcome_bind at 1.
  rewrite parseHeaderField_small by done. unfold mbind at 1, outcome_bind at 1.
  rewrite !minimal_varint_small by done. cbn [app].
  rewrite parseUvarint_small by lia.
  rewrite (int64_small (len keys)) by lia.
  rewrite (int64_small (len keys * 32)) by lia.
  destruct (len _ <? len keys * 32) eqn:Hlt.
  { unfold len at 1 in Hlt. rewrite length_app in Hlt.
    pose proof (length_concat_bytes keys) as Hc. unfold len at 1 in Hc.
    zcmp. lia. }
  unfold make, sizeof_PublicKey, sizeof_CompiledInstruction, maxAlloc.
  destruct ((len keys <? 2 ^ 63) && (32 * len keys <=? 2 ^ 48)) eqn:Hmk;
    [|apply andb_false_iff in Hmk as [?|?]; zcmp; lia].
  unfold mbind at 1, outcome_bind at 1.
  replace (Z.to_nat (len keys)) with (length keys) by (unfold len; lia).
  rewrite parseAccounts_wire.
  unfold mbind at 1, outcome_bind at 1. cbn [app].
  destruct (len _ <? 32) eqn:Hlt32.
  { unfold len in Hlt32. rewrite length_app in Hlt32. zcmp. lia. }
  rewrite <- Hlen, drop_app_length. cbn [app].
  rewrite parseUvarint_small by lia.
  destruct ((len (l ++ [ci]) <? 2 ^ 63) && (56 * len (l ++ [ci]) <=? 2 ^ 48))
    eqn:Hmk'; [|apply andb_false_iff in Hmk' as [?|?]; zcmp; lia].
  unfold mbind at 1, outcome_bind at 1.
  rewrite (int64_small (len (l ++ [ci]))) by lia.
  replace (Z.to_nat (len (l ++ [ci]))) with (length (l ++ [ci]))
    by (unfold len; lia).
  by rewrite parseInstructions_cut.
Qed.

End decode.

(** ** NewMessage: size of the account list, place of the signers *)

Section size.

Import types.

(** Every identity the instructions name, once per naming. *)
Lemma mentioned_named k instructions :
  mentioned k instructions = true →
  k ∈ concat ((λ i, Instruction.ProgramID i ::
                    (PubKey <$> Instruction.Accounts i)) <$> instructions).
Proof.
  unfold mentioned. intros (i & Hi & Hk)%existsb_exists.
  apply list_elem_of_In, in_concat.
  exists (Instruction.ProgramID i :: (PubKey <$> Instruction.Accounts i)).
  split; [apply list_elem_of_In, list_elem_of_fmap; exists i;
          split; [done|by apply list_elem_of_In]|].
  apply list_elem_of_In.
  apply orb_true_iff in Hk as [Hk|Hk].
  - apply bool_decide_eq_true in Hk as <-. apply list_elem_of_here.
  - apply existsb_exists in Hk as (a & Ha & Hk).
    apply bool_decide_eq_true in Hk as <-.
    apply list_elem_of_further, list_elem_of_fmap.
    exists a. split; [done|]. by apply list_elem_of_In.
Qed.

Lemma publicKeys_length ro feePayer instructions :
  (length (publicKeys (orderAccounts ro feePayer (mergeAccounts instructions)))
   ≤ 1 + length (concat ((λ i, Instruction.ProgramID i ::
                   (PubKey <$> Instruction.Accounts i)) <$> instructions)))%nat.
Proof.
  change (1 + length ?l)%nat with (length (feePayer :: l)).
  apply submseteq_length, NoDup_submseteq; [apply NoDup_publicKeys|].
  intros k [Hk|[_ ->]]%elem_of_publicKeys.
  - by apply list_elem_of_further, mentioned_named.
  - apply list_elem_of_here.
Qed.

(** A merged signer sits among the first [NumRequireSignatures] accounts,
    while the list has at most 255 entries. *)
Lemma signer_in_front ro feePayer instructions recentBlockHash k a :
  let m := NewMessage ro feePayer instructions recentBlockHash in
  len (Message.Accounts m) < 256 →
  mergeAccounts instructions !! k = Some a →
  IsSigner a = true →
  ∃ i : nat, Message.Accounts m !! i = Some k ∧
             Z.of_nat i < NumRequireSignatures (Message.Header m).
Proof.
  intros m. unfold m, NewMessage, publicKeys. rewrite orderAccounts_tiers.
  cbn [Message.Accounts Message.Header NumRequireSignatures
       writableSignedAccount readOnlySignedAccount writableUnsignedAccount
       readOnlyUnsignedAccount].
  set (front := if bool_decide (feePayer ≠ ZeroPublicKey)
                then [feePayer] else []).
  set (TT := PubKey <$> filter (λ a, classified feePayer a && in_tier true true a) _).
  set (TF := PubKey <$> filter (λ a, classified feePayer a && in_tier true false a) _).
  set (FT := PubKey <$> filter _ _). set (FF := PubKey <$> filter _ _).
  unfold len. rewrite !length_app. intros Hlen Hk Hs.
  unfold uint8. rewrite Z.mod_small by lia.
  assert (Hin : k ∈ (front ++ TT) ++ TF).
  { pose proof (mergeAccounts_key _ _ _ Hk) as Hkey.
    destruct (decide (feePayer ≠ ZeroPublicKey ∧ feePayer = k)) as [[Hz ->]|Hn].
    - apply elem_of_app. left. apply elem_of_app. left.
      unfold front. rewrite bool_decide_eq_true_2 by done.
      apply list_elem_of_here.
    - assert (Hc : classified feePayer a = true).
      { unfold classified. apply orb_true_iff.
        destruct (decide (feePayer = ZeroPublicKey)) as [Hz|Hz].
        - left. by apply bool_decide_eq_true.
        - right. apply bool_decide_eq_true. rewrite Hkey. intros ->.
          by apply Hn. }
      assert (Ha : a ∈ range ro (mergeAccounts instructions))
        by (apply elem_of_range; eauto).
      destruct (IsWritable a) eqn:Hw.
      + apply elem_of_app. left. apply elem_of_app. right.
        apply list_elem_of_fmap. exists a. split; [done|].
        apply list_elem_of_filter. split; [|done].
        unfold in_tier. by rewrite Hc, Hs, Hw.
      + apply elem_of_app. right.
        apply list_elem_of_fmap. exists a. split; [done|].
        apply list_elem_of_filter. split; [|done].
        unfold in_tier. by rewrite Hc, Hs, Hw. }
  apply list_elem_of_lookup in Hin as [i Hi]. exists i.
  pose proof (lookup_lt_Some _ _ _ Hi) as Hlt. rewrite !length_app in Hlt.
  split; [|lia].
  rewrite (app_assoc (front ++ TT)).
  by apply lookup_app_l_Some.
Qed.

Lemma names_count instructions :
  Z.of_nat (length (concat
    ((λ i, Instruction.ProgramID i ::
           (PubKey <$> Instruction.Accounts i)) <$> instructions)))
  = foldr (λ i n, 1 + len (Instruction.Accounts i) + n) 0 instructions.
Proof.
  induction instructions as [|i l IH]; [done|].
  cbn [fmap list_fmap concat foldr]. rewrite length_app, <- IH.
  cbn [length]. rewrite length_fmap. unfold len. lia.
Qed.

Lemma accounts_length ro feePayer instructions recentBlockHash :
  len (Message.Accounts (NewMessage ro feePayer instructions recentBlockHash))
  ≤ 1 + foldr (λ i n, 1 + len (Instruction.Accounts i) + n) 0 instructions.
Proof.
  unfold NewMessage. cbn [Message.Accounts].
  pose proof (publicKeys_length ro feePayer instructions) as Hle.
  rewrite <- names_count. unfold len. lia.
Qed.

(** The namings bound the number of instructions and the length of every
    account list. *)
Lemma names_bound_each instructions i :
  i ∈ instructions →
  1 + len (Instruction.Accounts i)
  ≤ foldr (λ i n, 1 + len (Instruction.Accounts i) + n) 0 instructions.
Proof.
  induction instructions as [|j l IH]; [by intros ?%elem_of_nil|].
  assert (0 ≤ foldr (λ i n, 1 + len (Instruction.Accounts i) + n) 0 l)
    by (rewrite <- names_count; lia).
  cbn [foldr]. intros [->|Hin]%elem_of_cons.
  - lia.
  - specialize (IH Hin). unfold len in *. lia.
Qed.

Lemma names_bound_length instructions :
  len instructions
  ≤ foldr (λ i n, 1 + len (Instruction.Accounts i) + n) 0 instructions.
Proof.
  induction instructions as [|j l IH]; [done|].
  cbn [foldr]. unfold len in *. cbn [length]. lia.
Qed.

(** A compiled message is below 128 everywhere once the instructions
    name fewer than 127 identities in all, each names an account and
    carries a payload of fewer than 128 bytes. *)
Lemma NewMessage_below_128 ro feePayer instructions recentBlockHash :
  instructions ≠ [] →
  Forall (λ i, Instruction.Accounts i ≠ [] ∧ len (Instruction.Data i) < 128)
         instructions →
  1 + foldr (λ i n, 1 + len (Instruction.Accounts i) + n) 0 instructions < 128 →
  below_128 (NewMessage ro feePayer instructions recentBlockHash).
Proof.
  intros Hne Hall Hnames.
  pose proof (accounts_length ro feePayer instructions recentBlockHash) as Hlen.
  pose proof (NewMessage_counts ro feePayer instructions recentBlockHash) as Hc.
  pose proof (NewMessage_resolves ro feePayer instructions recentBlockHash) as Hr.
  cbv zeta in Hc, Hr.
  set (m := NewMessage ro feePayer instructions recentBlockHash) in *.
  destruct Hc as (Hh & Hl & Hs).
  pose proof (identities_where_nonneg
    (λ a, classified feePayer a && in_tier true true a)
    (mergeAccounts instructions)) as Htt.
  pose proof (identities_where_nonneg
    (λ a, classified feePayer a && in_tier true false a)
    (mergeAccounts instructions)) as Htf.
  pose proof (identities_where_nonneg
    (λ a, classified feePayer a && in_tier false true a)
    (mergeAccounts instructions)) as Hft.
  pose proof (identities_where_nonneg
    (λ a, classified feePayer a && in_tier false false a)
    (mergeAccounts instructions)) as Hff.
  assert (Hfee : 0 ≤ (if bool_decide (feePayer ≠ ZeroPublicKey) then 1 else 0))
    by (case_bool_decide; lia).
  assert (Hpos : 0 < len (Message.Accounts m)).
  { destruct instructions as [|i l]; [done|].
    assert (Hin : Instruction.ProgramID i ∈ Message.Accounts m).
    { unfold m, NewMessage. cbn [Message.Accounts].
      apply elem_of_publicKeys. left.
      unfold mentioned. simpl. by rewrite bool_decide_eq_true_2. }
    destruct (Message.Accounts m); [by apply elem_of_nil in Hin|].
    unfold len. simpl. lia. }
  unfold below_128. rewrite Hh.
  cbn [NumRequireSignatures NumReadonlySignedAccounts
       NumReadonlyUnsignedAccounts].
  unfold uint8. rewrite !Z.mod_small by lia.
  split; [lia|]. split; [lia|]. split; [lia|]. split; [lia|].
  pose proof (names_bound_length instructions) as Hil.
  split.
  { unfold m, NewMessage. cbn [Message.Instructions].
    unfold len in *. rewrite length_map.
    destruct instructions; [done|]. simpl in *. lia. }
  eapply Forall2_Forall_r; [exact Hr|]. apply Forall_forall.
  intros i Hi ci (_ & Hp & Ha & Hd).
  rewrite Forall_forall in Hall. destruct (Hall i Hi) as [Hnil Hdata].
  pose proof (names_bound_each instructions i Hi) as Hie.
  pose proof (Forall2_length _ _ _ Ha) as Hsame.
  split; [lia|]. split.
  { unfold len in *. rewrite <- Hsame.
    destruct (Instruction.Accounts i); [done|]. simpl in *. lia. }
  split; [|by rewrite Hd].
  eapply Forall2_Forall_r; [exact Ha|]. apply Forall_forall.
  intros a _ idx [_ Hidx]. lia.
Qed.

End size.

(** X16. The account list of a compiled message has at most one entry for the
    fee payer and one for each naming of an identity by the instructions,
    as program or as account. *)
Theorem NewMessage_accounts_length_bound (ro : RangeOrder)
    (feePayer : PublicKey) (instructions : list Instruction.t)
    (recentBlockHash : string) :
  len (Message.Accounts
         (types.NewMessage ro feePayer instructions recentBlockHash))
  ≤ 1 + foldr (λ i n, 1 + len (Instruction.Accounts i) + n) 0 instructions.
Proof.
  apply accounts_length.
Qed.

(** X17. The two halves of the codec agree below 128: a message whose header
    fields, list lengths, indices and payload lengths are all below 128,
    with non-empty account, instruction and index lists and a block hash
    text that stands for 32 bytes and is their encoding, is serialized and
    read back unchanged. *)
Theorem Serialize_MessageDeserialize_below_128 `{Base58} (m : Message.t)
    (blockHash : list byte) :
  below_128 m →
  base58_Decode (Message.RecentBlockHash m) = Some blockHash →
  length blockHash = 32%nat →
  base58_Encode blockHash = Message.RecentBlockHash m →
  types.Serialize m ≫= types.MessageDeserialize = Ok m.
Proof. apply round_trip_below_128. Qed.

(** X18. Compiling, serializing and decoding compose into the identity on the
    compiled message when the instructions stay small: a non-empty
    sequence of instructions that make fewer than 127 namings in all (one
    for each program, one for each account entry), each with at least one
    account and a payload of fewer than 128 bytes, and a block hash text
    that stands for 32 bytes and is the encoding of those bytes. *)
Theorem compile_serialize_deserialize `{Base58} (ro : RangeOrder)
    (feePayer : PublicKey) (instructions : list Instruction.t)
    (recentBlockHash : string) (blockHash : list byte) :
  instructions ≠ [] →
  Forall (λ i, Instruction.Accounts i ≠ [] ∧ len (Instruction.Data i) < 128)
         instructions →
  1 + foldr (λ i n, 1 + len (Instruction.Accounts i) + n) 0 instructions < 128 →
  base58_Decode recentBlockHash = Some blockHash →
  length blockHash = 32%nat →
  base58_Encode blockHash = recentBlockHash →
  types.Serialize (types.NewMessage ro feePayer instructions recentBlockHash)
    ≫= types.MessageDeserialize
  = Ok (types.NewMessage ro feePayer instructions recentBlockHash).
Proof.
  intros Hne Hall Hnames Hdec Hlen Henc.
  pose proof (NewMessage_below_128 ro feePayer instructions recentBlockHash
                Hne Hall Hnames) as Hb.
  pose proof Hb as (_ & _ & _ & Hk & Hi & Hci).
  rewrite (Serialize_wire _ blockHash); [|split; lia|split; lia| |done].
  - by apply MessageDeserialize_wire.
  - eapply Forall_impl; [exact Hci|]. cbv beta.
    intros ci (_ & Hn & _). split; lia.
Qed.

(** ** tokenprog: the builders and the messages compiled from them *)

Section builders.

Import types tokenprog.
Context `{Bincode} `{WellKnown}.

Lemma appendSigners_app signers : ∀ accounts,
  appendSigners accounts signers =
  accounts ++ ((λ k, {| PubKey := k; IsSigner := true; IsWritable := false |})
               <$> signers).
Proof.
  unfold appendSigners.
  induction signers as [|s l IH]; intros accounts; cbn [foldl fmap list_fmap].
  - by rewrite app_nil_r.
  - by rewrite IH, <- app_assoc.
Qed.

Lemma InitializeMultisig_Built param i :
  InitializeMultisig param = Built i ↔
  1 ≤ len (InitializeMultisigParam.Signers param) ≤ 11 ∧
  InitializeMultisigParam.MinRequired param
    ≤ len (InitializeMultisigParam.Signers param) ∧
  ∃ data,
    bincode_SerializeData
      [ FieldUint8 2;
        FieldUint8 (InitializeMultisigParam.MinRequired param) ] = Some data ∧
    i = {| Instruction.ProgramID := TokenProgramID;
           Instruction.Accounts :=
             {| PubKey := InitializeMultisigParam.Account param;
                IsSigner := false; IsWritable := true |} ::
             {| PubKey := SysVarRentPubkey;
                IsSigner := false; IsWritable := false |} ::
             ((λ k, {| PubKey := k; IsSigner := true; IsWritable := false |})
              <$> InitializeMultisigParam.Signers param);
           Instruction.Data := data |}.
Proof.
  unfold InitializeMultisig, InstructionInitializeMultisig.
  rewrite appendSigners_app. cbn [app].
  set (n := len (InitializeMultisigParam.Signers param)).
  destruct (n <? 1) eqn:H1; [split; [done|]; zcmp; lia|].
  destruct (11 <? n) eqn:H11; [split; [done|]; zcmp; lia|].
  zcmp. unfold uint8. rewrite Z.mod_small by lia.
  destruct (n <? _) eqn:Hmin; [split; [done|]; zcmp; lia|]. zcmp.
  destruct (bincode_SerializeData _) as [data|] eqn:Hdata.
  - unfold make, sizeof_AccountMeta, maxAlloc.
    destruct ((2 + n <? 2 ^ 63) && (34 * (2 + n) <=? 2 ^ 48)) eqn:Hmk;
      [|apply andb_false_iff in Hmk as [?|?]; zcmp; lia].
    split.
    + intros [= <-]. split; [lia|]. split; [lia|]. by exists data.
    + intros (_ & _ & data' & [= <-] & ->). done.
  - split; [done|]. by intros (_ & _ & data' & ? & _).
Qed.

(** The keys of the entries a pass over the map selects: no key twice. *)
Lemma NoDup_selected (ro : RangeOrder) (P : AccountMeta → bool) instructions :
  NoDup (PubKey <$> filter P (range ro (mergeAccounts instructions))).
Proof.
  eapply sublist_NoDup; [|apply fmap_sublist, sublist_filter].
  rewrite range_keys. apply NoDup_fst_map_to_list.
Qed.

(** The signers among the classified entries are at most the identities
    the instructions flag as signers. *)
Lemma signers_bound (ro : RangeOrder) feePayer instructions
    (signers : list PublicKey) :
  (∀ k, any_flag IsSigner k instructions = true → k ∈ signers) →
  identities_where (λ a, classified feePayer a && IsSigner a)
                   (mergeAccounts instructions) ≤ len signers.
Proof.
  intros Hflag. rewrite <- (filter_range_length ro). unfold len.
  rewrite <- (length_fmap PubKey). apply inj_le, submseteq_length.
  apply NoDup_submseteq; [apply NoDup_selected|].
  intros k (a & -> & [Hq Ha]%list_elem_of_filter)%list_elem_of_fmap.
  apply andb_prop_elim in Hq as [_ Hs]. apply Is_true_eq_true in Hs.
  apply elem_of_range in Ha as [k Hk].
  pose proof (mergeAccounts_key _ _ _ Hk) as Hkey.
  rewrite mergeAccounts_lookup in Hk.
  destruct (mentioned k instructions); [|done].
  injection Hk as <-. simpl in *. by apply Hflag.
Qed.

Lemma NoDup_all_equal {A} (l : list A) x :
  NoDup l → (∀ y, y ∈ l → y = x) → l = [] ∨ l = [x].
Proof.
  destruct l as [|y [|z l]]; intros Hnd Hall; [by left| |].
  - right. f_equal. apply Hall, list_elem_of_here.
  - exfalso. apply NoDup_cons in Hnd as [Hy _]. apply Hy.
    rewrite (Hall y), (Hall z);
      [apply list_elem_of_here|apply list_elem_of_further, list_elem_of_here
      |apply list_elem_of_here].
Qed.

(** When the instructions flag one identity alone as a signer, the
    classification pass counts one signer, or none when that identity is
    the fee payer. *)
Lemma one_signer feePayer instructions auth :
  any_flag IsSigner auth instructions = true →
  mentioned auth instructions = true →
  (∀ k, any_flag IsSigner k instructions = true → k = auth) →
  identities_where (λ a, classified feePayer a && IsSigner a)
                   (mergeAccounts instructions)
  = if bool_decide (feePayer ≠ ZeroPublicKey ∧ feePayer = auth) then 0 else 1.
Proof.
  intros Hs Hm Honly. rewrite <- (filter_range_length range_forward).
  set (entry := {| PubKey := auth; IsSigner := true;
                   IsWritable := any_flag IsWritable auth instructions |}).
  assert (Hentry : mergeAccounts instructions !! auth = Some entry)
    by (by rewrite mergeAccounts_lookup, Hm, Hs).
  assert (Hall : ∀ a,
    a ∈ filter (λ a, classified feePayer a && IsSigner a)
               (range range_forward (mergeAccounts instructions)) →
    a = entry).
  { intros a [Hq Ha]%list_elem_of_filter.
    apply andb_prop_elim in Hq as [_ Hsa]. apply Is_true_eq_true in Hsa.
    apply elem_of_range in Ha as [k Hk].
    assert (k = auth) as ->.
    { apply Honly. rewrite mergeAccounts_lookup in Hk.
      destruct (mentioned k instructions); [|done].
      injection Hk as <-. done. }
    rewrite Hentry in Hk. by injection Hk. }
  pose proof (NoDup_selected range_forward
                (λ a, classified feePayer a && IsSigner a) instructions) as Hnd.
  apply NoDup_fmap_1 in Hnd.
  destruct (NoDup_all_equal _ _ Hnd Hall) as [Hl|Hl].
  - rewrite Hl. case_bool_decide as Hfee; [done|]. exfalso.
    assert (Hin : entry ∈ filter (λ a, classified feePayer a && IsSigner a)
                    (range range_forward (mergeAccounts instructions))).
    { apply list_elem_of_filter. split; [|apply elem_of_range; eauto].
      unfold classified. simpl. rewrite andb_true_r.
      apply orb_prop_intro.
      destruct (decide (feePayer = ZeroPublicKey)) as [Hz|Hz].
      - left. by apply bool_decide_pack.
      - right. apply bool_decide_pack. intros ->. by apply Hfee. }
    rewrite Hl in Hin. by apply elem_of_nil in Hin.
  - rewrite Hl. case_bool_decide as Hfee; [|done]. exfalso.
    destruct Hfee as [Hz ->].
    assert (Hin : entry ∈ filter (λ a, classified auth a && IsSigner a)
                    (range range_forward (mergeAccounts instructions)))
      by (rewrite Hl; apply list_elem_of_here).
    apply list_elem_of_filter in Hin as [Hq _].
    apply andb_prop_elim in Hq as [Hc _]. unfold classified in Hc.
    apply orb_prop_elim in Hc as [Hc|Hc]; apply bool_decide_unpack in Hc; done.
Qed.

Lemma Transfer_Built param i :
  Transfer param = Built i →
  TransferParam.Signers param = [] →
  ∃ data,
    i = {| Instruction.ProgramID := TokenProgramID;
           Instruction.Accounts :=
             [ {| PubKey := TransferParam.From param;
                  IsSigner := false; IsWritable := true |};
               {| PubKey := TransferParam.To param;
                  IsSigner := false; IsWritable := true |};
               {| PubKey := TransferParam.Auth param;
                  IsSigner := true; IsWritable := false |} ];
           Instruction.Data := data |}.
Proof.
  unfold Transfer. intros Hi Hs. rewrite Hs in Hi.
  destruct (bincode_SerializeData _) as [data|]; [|done].
  vm_compute make in Hi. injection Hi as <-. by exists data.
Qed.

End builders.

(** X19. [InitializeMultisig] returns an instruction exactly when it is given
    between 1 and 11 signers, a required number no greater than their
    number (zero is let through) and the serializer accepts the two
    fields; the conversion of the number of signers to a byte never
    wraps.  The instruction names the multisig account as writable, the
    rent sysvar, and every signer as a read-only signer, in this order. *)
Theorem InitializeMultisig_returns `{Bincode} `{WellKnown}
    (param : InitializeMultisigParam.t) (i : Instruction.t) :
  tokenprog.InitializeMultisig param = Built i ↔
  1 ≤ len (InitializeMultisigParam.Signers param) ≤ 11 ∧
  InitializeMultisigParam.MinRequired param
    ≤ len (InitializeMultisigParam.Signers param) ∧
  ∃ data,
    bincode_SerializeData
      [ FieldUint8 2;
        FieldUint8 (InitializeMultisigParam.MinRequired param) ] = Some data ∧
    i = {| Instruction.ProgramID := TokenProgramID;
           Instruction.Accounts :=
             {| PubKey := InitializeMultisigParam.Account param;
                IsSigner := false; IsWritable := true |} ::
             {| PubKey := SysVarRentPubkey;
                IsSigner := false; IsWritable := false |} ::
             ((λ k, {| PubKey := k; IsSigner := true; IsWritable := false |})
              <$> InitializeMultisigParam.Signers param);
           Instruction.Data := data |}.
Proof. apply InitializeMultisig_Built. Qed.

(** X20. In a message compiled from an [InitializeMultisig] instruction, under
    any fee payer and any iteration order, every signer of the multisig
    account sits among the first [NumRequireSignatures] accounts, and the
    message requires at most one signature more than there are signers. *)
Theorem InitializeMultisig_signers_must_sign `{Bincode} `{WellKnown}
    (param : InitializeMultisigParam.t) (i : Instruction.t)
    (ro : RangeOrder) (feePayer : PublicKey) (recentBlockHash : string) :
  tokenprog.InitializeMultisig param = Built i →
  let m := types.NewMessage ro feePayer [i] recentBlockHash in
  (∀ k, k ∈ InitializeMultisigParam.Signers param →
        ∃ idx : nat,
          Message.Accounts m !! idx = Some k ∧
          Z.of_nat idx < NumRequireSignatures (Message.Header m)) ∧
  NumRequireSignatures (Message.Header m)
    ≤ 1 + len (InitializeMultisigParam.Signers param).
Proof.
  intros (Hn & _ & data & _ & ->)%InitializeMultisig_Built m.
  set (signers := InitializeMultisigParam.Signers param) in *.
  set (i := {| Instruction.ProgramID := TokenProgramID |}) in *.
  assert (Hlen : len (Message.Accounts m) < 256).
  { pose proof (publicKeys_length ro feePayer [i]) as Hle.
    unfold m, types.NewMessage. cbn [Message.Accounts].
    cbn [fmap list_fmap concat Instruction.ProgramID Instruction.Accounts i
         length] in Hle.
    rewrite app_nil_r in Hle. cbn [length] in Hle.
    rewrite !length_fmap in Hle. unfold len in *. lia. }
  assert (Hflag : ∀ k, any_flag IsSigner k [i] = true ↔ k ∈ signers).
  { intros k. unfold any_flag. cbn [existsb i Instruction.Accounts IsSigner].
    rewrite !andb_false_r, !orb_false_r, !orb_false_l. split.
    - intros (a & Ha & Hk)%existsb_exists.
      apply list_elem_of_In, list_elem_of_fmap in Ha as (k' & -> & Hk').
      apply andb_true_iff in Hk as [Hk _].
      by apply bool_decide_eq_true in Hk as <-.
    - intros Hk. apply existsb_exists.
      exists {| PubKey := k; IsSigner := true; IsWritable := false |}.
      split; [apply list_elem_of_In, list_elem_of_fmap; eauto|].
      simpl. by rewrite bool_decide_eq_true_2. }
  split.
  - intros k Hk.
    assert (Hm : mentioned k [i] = true).
    { apply any_flag_mentioned with (flag := IsSigner). by apply Hflag. }
    eapply signer_in_front; [exact Hlen| |].
    + by rewrite mergeAccounts_lookup, Hm.
    + simpl. by apply Hflag.
  - pose proof (NewMessage_counts ro feePayer [i] recentBlockHash) as Hc.
    cbv zeta in Hc. fold m in Hc. destruct Hc as (-> & _ & _).
    cbn [NumRequireSignatures].
    pose proof (signers_bound ro feePayer [i] signers
                  (λ k, proj1 (Hflag k))) as Hb.
    pose proof (identities_where_nonneg
                  (λ a, classified feePayer a && IsSigner a)
                  (types.mergeAccounts [i])) as Hpos.
    unfold uint8. case_bool_decide; rewrite Z.mod_small; unfold len in *; lia.
Qed.

(** X21. A message compiled from one [Transfer] that names no multisig signer
    requires one signature when the owner is the fee payer, or when no fee
    payer is supplied, and two otherwise; under a fee payer the owner is
    never left out of the required signers. *)
Theorem Transfer_required_signatures `{Bincode} `{WellKnown}
    (param : TransferParam.t) (i : Instruction.t)
    (ro : RangeOrder) (feePayer : PublicKey) (recentBlockHash : string) :
  tokenprog.Transfer param = Built i →
  TransferParam.Signers param = [] →
  let m := types.NewMessage ro feePayer [i] recentBlockHash in
  NumRequireSignatures (Message.Header m)
    = (if bool_decide (feePayer ≠ ZeroPublicKey ∧
                       feePayer ≠ TransferParam.Auth param)
       then 2 else 1) ∧
  ∃ idx : nat,
    Message.Accounts m !! idx = Some (TransferParam.Auth param) ∧
    Z.of_nat idx < NumRequireSignatures (Message.Header m).
Proof.
  intros Hi Hs m. destruct (Transfer_Built _ _ Hi Hs) as [data ->].
  set (i := {| Instruction.ProgramID := TokenProgramID |}) in *.
  set (auth := TransferParam.Auth param) in *.
  assert (Hflag : ∀ k, any_flag IsSigner k [i] = true ↔ k = auth).
  { intros k. unfold any_flag.
    cbn [existsb i Instruction.Accounts IsSigner PubKey].
    rewrite !andb_false_r, !orb_false_r, !orb_false_l, andb_true_r.
    by rewrite bool_decide_eq_true. }
  assert (Hsig : any_flag IsSigner auth [i] = true) by (by apply Hflag).
  assert (Hm : mentioned auth [i] = true)
    by (by apply any_flag_mentioned with (flag := IsSigner)).
  assert (Hlen : len (Message.Accounts m) < 256).
  { pose proof (publicKeys_length ro feePayer [i]) as Hle.
    unfold m, types.NewMessage. cbn [Message.Accounts].
    cbn [fmap list_fmap concat Instruction.ProgramID Instruction.Accounts i
         length app] in Hle.
    unfold len in *. lia. }
  split.
  - pose proof (NewMessage_counts ro feePayer [i] recentBlockHash) as Hc.
    cbv zeta in Hc. fold m in Hc. destruct Hc as (-> & _ & _).
    cbn [NumRequireSignatures].
    rewrite (one_signer feePayer [i] auth Hsig Hm (λ k, proj1 (Hflag k))).
    repeat case_bool_decide; first [reflexivity | exfalso; tauto].
  - eapply signer_in_front; [exact Hlen| |].
    + by rewrite mergeAccounts_lookup, Hm.
    + done.
Qed.

(** ** The further properties on the worked inputs *)

Section further_worked.

Import types.
#[local] Existing Instance base58_btc.
#[local] Existing Instance sample_bincode.
#[local] Existing Instance sample_ids.

Lemma UintToVarLenBytes_shape_witness :
  0 < 300 < 2 ^ 64 ∧
  ∃ bs last,
    common.UintToVarLenBytes 300 = Ok (bs ++ [last]) ∧
    (length bs ≤ 9)%nat ∧
    Forall (λ b, 128 ≤ Z_of_byte b) bs ∧
    1 ≤ Z_of_byte last < 128.
Proof.
  assert (H300 : 0 < 300 < 2 ^ 64) by lia.
  split; [exact H300|]. exact (UintToVarLenBytes_shape 300 H300).
Defined.

Lemma UintToVarLenBytes_parseUvarint_witness :
  0 < 300 < 2 ^ 64 ∧
  ∃ b, common.UintToVarLenBytes 300 = Ok b ∧
       parseUvarint (b ++ [x07]) = (300, false, [x07]).
Proof.
  assert (H300 : 0 < 300 < 2 ^ 64) by lia.
  split; [exact H300|]. exact (UintToVarLenBytes_parseUvarint 300 [x07] H300).
Defined.

Lemma position_gives_privileges_witness :
  len (Message.Accounts scenario_msg) < 256 ∧
  Message.Accounts scenario_msg !! 1%nat = Some keyB ∧
  ((keyA ≠ ZeroPublicKey ∧ 1%nat = 0%nat ∧ keyB = keyA) ∨
   ∃ a, mergeAccounts scenario !! keyB = Some a ∧
        IsSigner a
          = bool_decide
              (1 < NumRequireSignatures (Message.Header scenario_msg)) ∧
        IsWritable a
          = bool_decide
              (1 < NumRequireSignatures (Message.Header scenario_msg)
                   - NumReadonlySignedAccounts (Message.Header scenario_msg) ∨
               NumRequireSignatures (Message.Header scenario_msg) ≤ 1
                 < len (Message.Accounts scenario_msg)
                   - NumReadonlyUnsignedAccounts
                       (Message.Header scenario_msg))).
Proof.
  assert (Hlen : len (Message.Accounts scenario_msg) < 256) by (by vm_compute).
  assert (Hi : Message.Accounts scenario_msg !! 1%nat = Some keyB)
    by (by vm_compute).
  split; [exact Hlen|]. split; [exact Hi|].
  exact (position_gives_privileges range_forward keyA scenario blockhash32
           1 keyB Hlen Hi).
Defined.

Lemma NewMessage_same_under_every_order_witness :
  (∀ s w, identities_where (λ a, classified keyA a && in_tier s w a)
                           (mergeAccounts scenario) ≤ 1) ∧
  NewMessage range_forward keyA scenario blockhash32
  = NewMessage range_backward keyA scenario blockhash32.
Proof.
  assert (Hsmall : ∀ s w,
            identities_where (λ a, classified keyA a && in_tier s w a)
                             (mergeAccounts scenario) ≤ 1)
    by (intros [] []; by vm_compute).
  split; [exact Hsmall|].
  exact (NewMessage_same_under_every_order range_forward range_backward keyA
           scenario blockhash32 Hsmall).
Defined.

Lemma Serialize_outcome_witness :
  len (Message.Accounts scenario_msg) < 2 ^ 64 ∧
  len (Message.Instructions scenario_msg) < 2 ^ 64 ∧
  Forall (λ ci, len (CompiledInstruction.Accounts ci) < 2 ^ 64)
         (Message.Instructions scenario_msg) ∧
  Serialize scenario_msg =
    if bool_decide (len (Message.Accounts scenario_msg) = 0)
    then Panic IndexOutOfRange
    else match base58_Decode (Message.RecentBlockHash scenario_msg) with
         | None => Err Base58DecodeError
         | Some blockHash =>
             if bool_decide
                  (0 < len (Message.Instructions scenario_msg) ∧
                   Forall (λ ci, 0 < len (CompiledInstruction.Accounts ci))
                          (Message.Instructions scenario_msg))
             then Ok (wire scenario_msg blockHash)
             else Panic IndexOutOfRange
         end.
Proof.
  assert (Ha : len (Message.Accounts scenario_msg) < 2 ^ 64) by (by vm_compute).
  assert (Hi : len (Message.Instructions scenario_msg) < 2 ^ 64)
    by (by vm_compute).
  assert (Hci : Forall (λ ci, len (CompiledInstruction.Accounts ci) < 2 ^ 64)
                       (Message.Instructions scenario_msg))
    by (repeat constructor; by vm_compute).
  split; [exact Ha|]. split; [exact Hi|]. split; [exact Hci|].
  exact (Serialize_outcome scenario_msg Ha Hi Hci).
Defined.

Lemma compiled_message_serializes_witness :
  scenario ≠ [] ∧
  Forall (λ i, Instruction.Accounts i ≠ []) scenario ∧
  base58_Decode blockhash32 = Some (replicate 32 x00) ∧
  len (Message.Accounts scenario_msg) < 2 ^ 64 ∧
  len scenario < 2 ^ 64 ∧
  Forall (λ i, len (Instruction.Accounts i) < 2 ^ 64) scenario ∧
  Serialize scenario_msg = Ok (wire scenario_msg (replicate 32 x00)).
Proof.
  assert (Hne : scenario ≠ []) by done.
  assert (Hacc : Forall (λ i, Instruction.Accounts i ≠ []) scenario)
    by (repeat constructor; done).
  assert (Hh : base58_Decode blockhash32 = Some (replicate 32 x00))
    by (by vm_compute).
  assert (Hla : len (Message.Accounts scenario_msg) < 2 ^ 64)
    by (by vm_compute).
  assert (Hli : len scenario < 2 ^ 64) by (by vm_compute).
  assert (Hlia : Forall (λ i, len (Instruction.Accounts i) < 2 ^ 64) scenario)
    by (repeat constructor; by vm_compute).
  split; [exact Hne|]. split; [exact Hacc|]. split; [exact Hh|].
  split; [exact Hla|]. split; [exact Hli|]. split; [exact Hlia|].
  exact (compiled_message_serializes range_forward keyA scenario blockhash32
           (replicate 32 x00) Hne Hacc Hh Hla Hli Hlia).
Defined.

Lemma scenario_below_128 : below_128 scenario_msg.
Proof.
  unfold below_128. repeat split; try (by vm_compute).
  repeat constructor; by vm_compute.
Qed.

Lemma Serialize_MessageDeserialize_below_128_witness :
  below_128 scenario_msg ∧
  base58_Decode (Message.RecentBlockHash scenario_msg)
    = Some (replicate 32 x00) ∧
  length (replicate 32 x00) = 32%nat ∧
  base58_Encode (replicate 32 x00) = Message.RecentBlockHash scenario_msg ∧
  Serialize scenario_msg ≫= MessageDeserialize = Ok scenario_msg.
Proof.
  assert (Hd : base58_Decode (Message.RecentBlockHash scenario_msg)
               = Some (replicate 32 x00)) by (by vm_compute).
  assert (Hl : length (replicate 32 x00) = 32%nat) by reflexivity.
  assert (He : base58_Encode (replicate 32 x00)
               = Message.RecentBlockHash scenario_msg) by (by vm_compute).
  split; [exact scenario_below_128|]. split; [exact Hd|].
  split; [exact Hl|]. split; [exact He|].
  exact (Serialize_MessageDeserialize_below_128 scenario_msg
           (replicate 32 x00) scenario_below_128 Hd Hl He).
Defined.

Lemma MessageDeserialize_ignores_trailing_bytes_witness :
  below_128 scenario_msg ∧
  length (replicate 32 x00) = 32%nat ∧
  base58_Encode (replicate 32 x00) = Message.RecentBlockHash scenario_msg ∧
  MessageDeserialize (wire scenario_msg (replicate 32 x00) ++ [xff; xff])
  = Ok scenario_msg.
Proof.
  assert (Hl : length (replicate 32 x00) = 32%nat) by reflexivity.
  assert (He : base58_Encode (replicate 32 x00)
               = Message.RecentBlockHash scenario_msg) by (by vm_compute).
  split; [exact scenario_below_128|]. split; [exact Hl|]. split; [exact He|].
  exact (MessageDeserialize_ignores_trailing_bytes scenario_msg
           (replicate 32 x00) [xff; xff] scenario_below_128 Hl He).
Defined.

Lemma MessageDeserialize_Ok_bounds_witness :
  MessageDeserialize scenario_bytes = Ok scenario_msg ∧
  0 ≤ NumRequireSignatures (Message.Header scenario_msg) < 256 ∧
  0 ≤ NumReadonlySignedAccounts (Message.Header scenario_msg) < 256 ∧
  0 ≤ NumReadonlyUnsignedAccounts (Message.Header scenario_msg) < 256 ∧
  32 * len (Message.Accounts scenario_msg) + 32 ≤ len scenario_bytes.
Proof.
  assert (Hok : MessageDeserialize scenario_bytes = Ok scenario_msg)
    by (by vm_compute).
  split; [exact Hok|].
  exact (MessageDeserialize_Ok_bounds scenario_bytes scenario_msg Hok).
Defined.

Lemma MessageDeserialize_huge_account_count_witness :
  0 ≤ 1 < 128 ∧ 0 ≤ 0 < 128 ∧ 1 ≤ 1 < 32 ∧
  ∃ prefix,
    common.UintToVarLenBytes (1 * 2 ^ 59) = Ok prefix ∧
    MessageDeserialize
      ([byte_of_Z 1; byte_of_Z 0; byte_of_Z 1] ++ prefix ++ [])
    = Panic MakesliceCapOutOfRange.
Proof.
  assert (H1 : 0 ≤ 1 < 128) by lia.
  assert (H0 : 0 ≤ 0 < 128) by lia.
  assert (Hj : 1 ≤ 1 < 32) by lia.
  split; [exact H1|]. split; [exact H0|]. split; [exact Hj|].
  exact (MessageDeserialize_huge_account_count 1 0 1 1 [] H1 H0 H1 Hj).
Defined.

Lemma MessageDeserialize_cut_in_last_payload_witness :
  below_128 scenario_msg ∧
  length (replicate 32 x00) = 32%nat ∧
  Message.Instructions scenario_msg
    = [] ++ [ {| CompiledInstruction.ProgramIDIndex := 2;
                 CompiledInstruction.Accounts := [0; 1];
                 CompiledInstruction.Data := [x09] |} ] ∧
  (0 < 1 ≤ length [x09])%nat ∧
  MessageDeserialize
    (take (length (wire scenario_msg (replicate 32 x00)) - 1)
          (wire scenario_msg (replicate 32 x00)))
  = Panic SliceBoundsOutOfRange.
Proof.
  assert (Hl : length (replicate 32 x00) = 32%nat) by reflexivity.
  assert (Hi : Message.Instructions scenario_msg
               = [] ++ [ {| CompiledInstruction.ProgramIDIndex := 2;
                            CompiledInstruction.Accounts := [0; 1];
                            CompiledInstruction.Data := [x09] |} ])
    by (by vm_compute).
  assert (Hk : (0 < 1 ≤ length [x09])%nat) by (simpl; lia).
  split; [exact scenario_below_128|]. split; [exact Hl|]. split; [exact Hi|].
  split; [exact Hk|].
  exact (MessageDeserialize_cut_in_last_payload scenario_msg (replicate 32 x00)
           [] _ 1 scenario_below_128 Hl Hi Hk).
Defined.

Lemma compile_serialize_deserialize_witness :
  scenario ≠ [] ∧
  Forall (λ i, Instruction.Accounts i ≠ [] ∧ len (Instruction.Data i) < 128)
         scenario ∧
  1 + foldr (λ i n, 1 + len (Instruction.Accounts i) + n) 0 scenario < 128 ∧
  base58_Decode blockhash32 = Some (replicate 32 x00) ∧
  length (replicate 32 x00) = 32%nat ∧
  base58_Encode (replicate 32 x00) = blockhash32 ∧
  Serialize (NewMessage range_backward keyA scenario blockhash32)
    ≫= MessageDeserialize
  = Ok (NewMessage range_backward keyA scenario blockhash32).
Proof.
  assert (Hne : scenario ≠ []) by done.
  assert (Hall : Forall (λ i, Instruction.Accounts i ≠ [] ∧
                              len (Instruction.Data i) < 128) scenario)
    by (repeat constructor; by vm_compute).
  assert (Hnames : 1 + foldr (λ i n, 1 + len (Instruction.Accounts i) + n)
                             0 scenario < 128) by (by vm_compute).
  assert (Hd : base58_Decode blockhash32 = Some (replicate 32 x00))
    by (by vm_compute).
  assert (Hl : length (replicate 32 x00) = 32%nat) by reflexivity.
  assert (He : base58_Encode (replicate 32 x00) = blockhash32)
    by (by vm_compute).
  split; [exact Hne|]. split; [exact Hall|]. split; [exact Hnames|].
  split; [exact Hd|]. split; [exact Hl|]. split; [exact He|].
  exact (compile_serialize_deserialize range_backward keyA scenario
           blockhash32 (replicate 32 x00) Hne Hall Hnames Hd Hl He).
Defined.

Lemma InitializeMultisig_signers_must_sign_witness :
  ∃ i, tokenprog.InitializeMultisig sample_multisig = Built i ∧
    (∀ k, k ∈ InitializeMultisigParam.Signers sample_multisig →
          ∃ idx : nat,
            Message.Accounts (NewMessage range_forward keyA [i] blockhash32)
              !! idx = Some k ∧
            Z.of_nat idx
              < NumRequireSignatures
                  (Message.Header
                     (NewMessage range_forward keyA [i] blockhash32))) ∧
    NumRequireSignatures
      (Message.Header (NewMessage range_forward keyA [i] blockhash32))
      ≤ 1 + len (InitializeMultisigParam.Signers sample_multisig).
Proof.
  eexists. split; [reflexivity|].
  exact (InitializeMultisig_signers_must_sign sample_multisig _
           range_forward keyA blockhash32 eq_refl).
Defined.

Lemma Transfer_required_signatures_witness :
  ∃ i, tokenprog.Transfer sample_transfer = Built i ∧
    TransferParam.Signers sample_transfer = [] ∧
    NumRequireSignatures
      (Message.Header (NewMessage range_forward keyB [i] blockhash32))
      = (if bool_decide (keyB ≠ ZeroPublicKey ∧
                         keyB ≠ TransferParam.Auth sample_transfer)
         then 2 else 1) ∧
    ∃ idx : nat,
      Message.Accounts (NewMessage range_forward keyB [i] blockhash32)
        !! idx = Some (TransferParam.Auth sample_transfer) ∧
      Z.of_nat idx
        < NumRequireSignatures
            (Message.Header (NewMessage range_forward keyB [i] blockhash32)).
Proof.
  eexists. split; [reflexivity|]. split; [reflexivity|].
  exact (Transfer_required_signatures sample_transfer _
           range_forward keyB blockhash32 eq_refl eq_refl).
Defined.

End further_worked.
